(** * Music Soup: the reconciliation and deduplication engine

    A shallow embedding of the sync orchestrator (syncOrchestrator.js, in its
    current and in its earlier revision), of the Notion client
    (notionClient.js), of the schema helpers (schema.js), of the configuration
    module (config.js) and of the two track normalizers (spotifyClient.js,
    appleMusicClient.js), followed by the properties the specification states
    about them.

    Conventions.
    - An asynchronous function is a computation in the monad [M]: it threads
      the state of the Notion database (the sink) and either returns a value
      or throws.  [await] is sequencing; pacing delays and logging have no
      effect on the sink and are left out.
    - The Notion service itself is outside the repository.  A call to it may
      fail; which calls fail is decided by the field [fails] of the world,
      indexed by the number of calls made so far.
    - Strings are byte strings; [toLowerCase] lowers the ASCII letters. *)

From Stdlib Require Import Ascii.
From stdpp Require Import base numbers strings list gmap pretty.

Local Open Scope Z_scope.
#[local] Set Warnings "-clear-no-such-hyp".

(** ** JavaScript primitives *)

Module Js.

(** [!s] is true only for the empty string. *)
Definition truthy (s : string) : bool :=
  match s with
  | EmptyString => false
  | String _ _ => true
  end.

(** Truthiness of a property that may be [undefined]. *)
Definition truthyO (o : option string) : bool :=
  match o with
  | Some s => truthy s
  | None => false
  end.

Definition lowerChar (c : ascii) : ascii :=
  let n := Ascii.N_of_ascii c in
  if ((65 <=? n) && (n <=? 90))%N then Ascii.ascii_of_N (n + 32) else c.

(** [String.prototype.toLowerCase], on ASCII. *)
Fixpoint toLowerCase (s : string) : string :=
  match s with
  | EmptyString => EmptyString
  | String c s' => String (lowerChar c) (toLowerCase s')
  end.

(** [String.prototype.includes]: [sub] occurs somewhere in [s]. *)
Fixpoint includes (s sub : string) : bool :=
  if String.prefix sub s then true
  else match s with
       | EmptyString => false
       | String _ s' => includes s' sub
       end.

(** A number-valued property: [undefined], [null] or a number. *)
Inductive num := Undefined | Null | Num (n : Z).

(** [x !== undefined] *)
Definition defined (x : num) : bool :=
  match x with Undefined => false | _ => true end.

Definition definedO {A} (x : option A) : bool :=
  match x with Some _ => true | None => false end.

(** [Math.round(n / d)] for an integer [n] and a positive integer [d]:
    the nearest integer, a half rounded up. *)
Definition roundDiv (n d : Z) : Z := (2 * n + d) / (2 * d).

(** [String.prototype.padStart(2, '0')]. *)
Definition padStart2 (s : string) : string :=
  match s with
  | String c EmptyString => String "0"%char (String c EmptyString)
  | EmptyString => "00"
  | _ => s
  end.

(** The part of a string before the first ['-'], as [split('-')[0]]. *)
Fixpoint beforeDash (s : string) : string :=
  match s with
  | EmptyString => EmptyString
  | String c s' =>
      if Ascii.eqb c "-"%char then EmptyString else String c (beforeDash s')
  end.

Definition digit (c : ascii) : option Z :=
  let n := Ascii.N_of_ascii c in
  if ((48 <=? n) && (n <=? 57))%N then Some (Z.of_N (n - 48)) else None.

Definition isSpace (c : ascii) : bool :=
  let n := Ascii.N_of_ascii c in
  ((n =? 32) || ((9 <=? n) && (n <=? 13)))%N.

Fixpoint skipSpaces (s : string) : string :=
  match s with
  | String c s' => if isSpace c then skipSpaces s' else s
  | EmptyString => EmptyString
  end.

(** The longest prefix of decimal digits, read as a number. *)
Fixpoint digits (acc : option Z) (s : string) : option Z :=
  match s with
  | EmptyString => acc
  | String c s' =>
      match digit c with
      | Some d => digits (Some (default 0 acc * 10 + d)) s'
      | None => acc
      end
  end.

(** [parseInt] on a decimal numeral: leading white space, an optional
    sign, then digits; [None] stands for [NaN]. *)
Definition parseInt (s : string) : option Z :=
  match skipSpaces s with
  | String "+"%char s' => digits None s'
  | String "-"%char s' => Z.opp <$> digits None s'
  | s' => digits None s'
  end.

End Js.

(** ** Errors, results and the monad of asynchronous calls *)

Inductive Error :=
| ApiError (msg : string)
| TypeError (msg : string)
| PlainError (msg : string).

Inductive Result (A : Type) :=
| Ok (a : A)
| Throw (e : Error).
Arguments Ok {A} a.
Arguments Throw {A} e.

Definition isOk {A} (r : Result A) : bool :=
  match r with Ok _ => true | Throw _ => false end.

Definition rbind {A B} (r : Result A) (k : A -> Result B) : Result B :=
  match r with
  | Ok a => k a
  | Throw e => Throw e
  end.

(** ** Notion pages *)

Inductive PropValue :=
| PTitle (content : option string)
| PRichText (content : option string)
| PNumber (n : option Z)
| PSelect (name : option string)
| PUrl (u : option string)
| PCheckbox (b : bool).

Global Instance PropValue_eq_dec : EqDecision PropValue.
Proof. solve_decision. Defined.

(** A page of the database.  A title or rich-text property is represented by
    the content of its first text segment, which is what the clients read
    ([?.rich_text?.[0]?.text?.content]) and what [formatRichText] and
    [formatTitle] write; [None] is a property without text. *)
Record Page := mkPage {
  id : string;
  properties : gmap string PropValue
}.

Global Instance Page_eq_dec : EqDecision Page.
Proof. solve_decision. Defined.

Record World := mkWorld {
  pages : list Page;        (* the database, newest page first *)
  nextId : nat;             (* supply of page identifiers *)
  tick : nat;               (* number of Notion calls made so far *)
  fails : nat -> bool       (* [fails n]: the call number [n] fails *)
}.

Definition M (A : Type) : Type := World -> Result A * World.

Definition ret {A} (a : A) : M A := fun w => (Ok a, w).
Definition throw {A} (e : Error) : M A := fun w => (Throw e, w).
Definition bind {A B} (m : M A) (k : A -> M B) : M B :=
  fun w =>
    match m w with
    | (Ok a, w') => k a w'
    | (Throw e, w') => (Throw e, w')
    end.
(** [try { m } catch (error) { h error }] *)
Definition tryCatch {A} (m : M A) (h : Error -> M A) : M A :=
  fun w =>
    match m w with
    | (Ok a, w') => (Ok a, w')
    | (Throw e, w') => h e w'
    end.
(** A synchronous result used inside an asynchronous function. *)
Definition lift {A} (r : Result A) : M A := fun w => (r, w).

Notation "'do' x <- m ; k" := (bind m (fun x => k))
  (at level 20, x name, m at level 100, k at level 200, only parsing,
   right associativity).

(** ** The Notion service (the sink)

    The three operations of the service the client uses.  They are not code
    of the repository; they follow the contract of the sink: a query returns
    the matching pages newest first, a creation adds a page, an update
    changes the properties it is given and leaves the others as they are. *)

Inductive Filter :=
| RichTextContains (property value : string)
| TitleContains (property value : string)
| CheckboxEquals (property : string) (value : bool).

(** [page.properties[name]?.rich_text?.[0]?.text?.content] *)
Definition richTextContent (p : Page) (name : string) : option string :=
  match properties p !! name with
  | Some (PRichText c) => c
  | _ => None
  end.

(** [page.properties[name]?.title?.[0]?.text?.content] *)
Definition titleContent (p : Page) (name : string) : option string :=
  match properties p !! name with
  | Some (PTitle c) => c
  | _ => None
  end.

(** [page.properties[name]?.select?.name] *)
Definition selectName (p : Page) (name : string) : option string :=
  match properties p !! name with
  | Some (PSelect c) => c
  | _ => None
  end.

(** The value of a checkbox; a page without the property is unchecked. *)
Definition checkbox (p : Page) (name : string) : bool :=
  match properties p !! name with
  | Some (PCheckbox b) => b
  | _ => false
  end.

Definition matchesFilter (f : Filter) (p : Page) : bool :=
  match f with
  | RichTextContains name v => Js.includes (default "" (richTextContent p name)) v
  | TitleContains name v => Js.includes (default "" (titleContent p name)) v
  | CheckboxEquals name b => bool_decide (checkbox p name = b)
  end.

Definition setPages (ps : list Page) (w : World) : World :=
  mkWorld ps (nextId w) (tick w) (fails w).

(** The world after one request: the request is counted. *)
Definition ticked (w : World) : World :=
  mkWorld (pages w) (nextId w) (S (tick w)) (fails w).

(** One request to the service: it is counted, and it fails when the world
    says that this request fails. *)
Definition request : M unit :=
  fun w =>
    if fails w (tick w)
    then (Throw (ApiError "request failed"), ticked w)
    else (Ok tt, ticked w).

(** [notion.databases.query], sorted by creation time, newest first. *)
Definition databases_query (f : Filter) : M (list Page) :=
  do _ <- request;
  fun w => (Ok (List.filter (matchesFilter f) (pages w)), w).

(** [notion.pages.create]: the new page is the newest one. *)
Definition pages_create (props : gmap string PropValue) : M Page :=
  do _ <- request;
  fun w =>
    let p := mkPage ("page-" +:+ pretty (nextId w)) props in
    (Ok p, mkWorld (p :: pages w) (S (nextId w)) (tick w) (fails w)).

(** The page after a partial update: the given properties replace the old
    ones, every other property keeps its value. *)
Definition patch (props : gmap string PropValue) (p : Page) : Page :=
  mkPage (id p) (props ∪ properties p).

Definition patchPage (pageId : string) (props : gmap string PropValue)
    (p : Page) : Page :=
  if decide (id p = pageId) then patch props p else p.

(** [notion.pages.update]; an unknown page is an error of the service. *)
Definition pages_update (pageId : string) (props : gmap string PropValue)
    : M Page :=
  do _ <- request;
  fun w =>
    match List.find (fun p => bool_decide (id p = pageId)) (pages w) with
    | Some p => (Ok (patch props p), setPages (patchPage pageId props <$> pages w) w)
    | None => (Throw (ApiError "object not found"), w)
    end.

(** ** schema.js *)

Module Schema.

(** [NOTION_FIELDS]: automated fields, then manual fields. *)
Definition TRACK_TITLE : string := "Track Title".
Definition TRACK_NUMBER : string := "Track Number".
Definition ALBUM : string := "Album".
Definition ARTIST : string := "Artist".
Definition PERFORMED_BY : string := "Performed By".
Definition RELEASE_DATE : string := "Release Date".
Definition DURATION : string := "Duration".
Definition ISRC_UPC : string := "ISRC/UPC".
Definition URL : string := "URL".
Definition PLAYLIST : string := "Playlist".
Definition TYPE : string := "Type".
Definition CREATED_TIME : string := "Created time".
Definition REMOVED : string := "Removed".
Definition RECORD_DATE : string := "Record Date".
Definition COMPOSER : string := "Composer".
Definition THEMES : string := "Themes".
Definition NOTES : string := "Notes".
Definition INSTRUMENTS : string := "Instruments".
Definition MOOD : string := "Mood/Keywords".

(** [DATABASE_SCHEMA], reduced to the flag [automated] of each field. *)
Definition DATABASE_SCHEMA : list (string * bool) :=
  [ (TRACK_TITLE, true); (TRACK_NUMBER, true); (ALBUM, true); (ARTIST, true);
    (PERFORMED_BY, true); (RELEASE_DATE, true); (DURATION, true);
    (ISRC_UPC, true); (URL, true); (PLAYLIST, true); (TYPE, true);
    (CREATED_TIME, true); (REMOVED, true);
    (RECORD_DATE, false); (COMPOSER, false); (THEMES, false);
    (NOTES, false); (INSTRUMENTS, false); (MOOD, false) ].

(** The fields the team fills in by hand, which no track carries. *)
Definition annotationFields : list string :=
  [RECORD_DATE; THEMES; NOTES; INSTRUMENTS; MOOD].

Definition formatRichText (text : option string) : option string :=
  match text with
  | Some s => if Js.truthy s then Some s else None
  | None => None
  end.

Definition formatTitle (title : string) : option string :=
  if Js.truthy title then Some title else None.

(** Seconds to [M:SS]; [null] for [0], [null] and [undefined]. *)
Definition formatDuration (seconds : Js.num) : option string :=
  match seconds with
  | Js.Num n =>
      if n =? 0 then None
      else
        let minutes := n / 60 in
        let remainingSeconds := Z.rem n 60 in
        Some (pretty minutes +:+ ":" +:+ Js.padStart2 (pretty remainingSeconds))
  | _ => None
  end.

Definition formatReleaseYear (releaseDate : string) : option Z :=
  if Js.truthy releaseDate then Js.parseInt (Js.beforeDash releaseDate)
  else None.

Definition formatSelect (value : string) : option string :=
  if Js.truthy value then Some value else None.

Definition formatUrl (url : string) : option string :=
  if Js.truthy url then Some url else None.

Definition formatNumber (number : option Z) : option Z := number.

Definition formatCheckbox (value : bool) : bool := value.

End Schema.

(** ** The canonical track *)

Record Track := mkTrack {
  source : string;
  sourceId : string;
  title : string;
  url : option string;
  duration : Js.num;
  trackNumber : option Z;
  artist : option string;
  performedBy : option string;
  album : option string;
  releaseDate : option string;
  label : option string;
  isrc : option string;
  composer : option string;
  genre : option string;
  type : option string;
  playlist : option string;
  playlistType : option string
}.

(** ** config.js *)

Module Config.

Record PlaylistEntry := mkPlaylistEntry { pl_id : string; pl_type : string }.

Record Playlists := mkPlaylists {
  pl_source : PlaylistEntry;
  pl_temp : PlaylistEntry
}.

(** What the module exports, without the credentials. *)
Record Exports := mkExports {
  spotify_playlists : Playlists;
  appleMusic_userToken : string;
  appleMusic_storefront : string;
  appleMusic_playlists : Playlists;
  logLevel : string;
  dryRun : bool
}.



Inductive Service := spotify | appleMusic.

Record Configured := mkConfigured {
  service : Service;
  key : string;
  cid : string;
  ctype : string
}.

(** [Object.entries(playlists)], in the order the object is written. *)
Definition entries (p : Playlists) : list (string * PlaylistEntry) :=
  [("source", pl_source p); ("temp", pl_temp p)].

Definition getAllConfiguredPlaylists (c : Exports) : list Configured :=
  let spotifyOnes :=
    omap (fun '(k, playlist) =>
            if Js.truthy (pl_id playlist)
            then Some (mkConfigured spotify k (pl_id playlist) (pl_type playlist))
            else None)
         (entries (spotify_playlists c)) in
  let appleOnes :=
    omap (fun '(k, playlist) =>
            if Js.truthy (pl_id playlist) && Js.truthy (appleMusic_userToken c)
            then Some (mkConfigured appleMusic k (pl_id playlist) (pl_type playlist))
            else None)
         (entries (appleMusic_playlists c)) in
  spotifyOnes ++ appleOnes.

(** The exported object as JavaScript sees it: a property that the module
    does not export reads as [undefined]. *)
#[local] Unset Elimination Schemes.
Inductive value :=
| VUndefined
| VString (s : string)
| VBool (b : bool)
| VFunction
| VObject (fields : list (string * value)).
#[local] Set Elimination Schemes.

Definition playlistsObject (p : Playlists) : value :=
  VObject
    ((fun '(k, e) =>
        (k, VObject [("id", VString (pl_id e)); ("type", VString (pl_type e))]))
       <$> entries p).

(** [module.exports] of config.js. *)
Definition module_exports (c : Exports) : value :=
  VObject
    [ ("notion", VObject []);
      ("spotify", VObject [("playlists", playlistsObject (spotify_playlists c))]);
      ("appleMusic",
        VObject [ ("userToken", VString (appleMusic_userToken c));
                  ("storefront", VString (appleMusic_storefront c));
                  ("playlists", playlistsObject (appleMusic_playlists c)) ]);
      ("config",
        VObject [ ("logLevel", VString (logLevel c));
                  ("dryRun", VBool (dryRun c)) ]);
      ("getAllConfiguredPlaylists", VFunction);
      ("requireEnv", VFunction);
      ("getEnv", VFunction) ].

Fixpoint assoc (k : string) (fields : list (string * value)) : value :=
  match fields with
  | [] => VUndefined
  | (k', v) :: rest => if decide (k' = k) then v else assoc k rest
  end.

(** [v[k]]: reading a property of [undefined] is a [TypeError]; a property
    that is missing reads as [undefined]. *)
Definition getProperty (v : value) (k : string) : Result value :=
  match v with
  | VUndefined =>
      Throw (TypeError "Cannot read properties of undefined")
  | VObject fields => Ok (assoc k fields)
  | _ => Ok VUndefined
  end.

(** [v || d], the result read as the string a select field will hold. *)
Definition orDefault (v : value) (d : string) : string :=
  match v with
  | VUndefined => d
  | VString s => if Js.truthy s then s else d
  | VBool b => if b then "true" else d
  | VFunction => "function"
  | VObject _ => "[object Object]"
  end.

End Config.

(** ** notionClient.js *)

Module NotionClient.
Import Schema.

Definition setWhen (c : bool) (name : string) (v : PropValue)
    (props : gmap string PropValue) : gmap string PropValue :=
  if c then <[name := v]> props else props.

(** The properties written for a track.  The parameter [isUpdate] is not
    read by the body. *)
Definition buildTrackProperties (trackData : Track) (isUpdate : bool)
    : gmap string PropValue :=
  let properties : gmap string PropValue := ∅ in
  let properties :=
    setWhen (Js.truthy (title trackData)) TRACK_TITLE
      (PTitle (formatTitle (title trackData))) properties in
  let properties :=
    setWhen (Js.definedO (trackNumber trackData)) TRACK_NUMBER
      (PNumber (formatNumber (trackNumber trackData))) properties in
  let properties :=
    setWhen (Js.truthyO (album trackData)) ALBUM
      (PRichText (formatRichText (album trackData))) properties in
  let properties :=
    setWhen (Js.truthyO (artist trackData)) ARTIST
      (PRichText (formatRichText (artist trackData))) properties in
  let properties :=
    setWhen (Js.truthyO (performedBy trackData)) PERFORMED_BY
      (PRichText (formatRichText (performedBy trackData))) properties in
  let properties :=
    setWhen (Js.truthyO (releaseDate trackData)) RELEASE_DATE
      (PNumber (formatReleaseYear (default "" (releaseDate trackData))))
      properties in
  let properties :=
    setWhen (Js.defined (duration trackData)) DURATION
      (PRichText (formatRichText (formatDuration (duration trackData))))
      properties in
  let properties :=
    setWhen (Js.truthyO (isrc trackData)) ISRC_UPC
      (PRichText (formatRichText (isrc trackData))) properties in
  let properties :=
    setWhen (Js.truthyO (url trackData)) URL
      (PUrl (formatUrl (default "" (url trackData)))) properties in
  let properties :=
    setWhen (Js.truthyO (playlist trackData)) PLAYLIST
      (PSelect (formatSelect (default "" (playlist trackData)))) properties in
  let properties :=
    setWhen (Js.truthyO (type trackData)) TYPE
      (PSelect (formatSelect (default "" (type trackData)))) properties in
  let properties :=
    setWhen (Js.truthyO (composer trackData)) COMPOSER
      (PRichText (formatRichText (composer trackData))) properties in
  (* Set removed to false for new/updated tracks *)
  <[REMOVED := PCheckbox (formatCheckbox false)]> properties.

Section WithConfig.
Variable config : Config.Exports.

Definition queryDatabase (filters : Filter) : M (list Page) :=
  tryCatch (databases_query filters) (fun error => throw error).

Definition findTrackByIsrc (isrc : option string) : M (option Page) :=
  match isrc with
  | None => ret None
  | Some isrc =>
      if negb (Js.truthy isrc) then ret None
      else
        tryCatch
          (do results <- queryDatabase (RichTextContains ISRC_UPC isrc);
           match results with
           | r :: _ => ret (Some r)
           | [] => ret None
           end)
          (fun _ => ret None)
  end.

(** The test of the loop over the results of the title query. *)
Definition artistMatches (artist : string) (result : Page) : bool :=
  match richTextContent result ARTIST with
  | Some existingArtist =>
      Js.truthy existingArtist
      && Js.includes (Js.toLowerCase existingArtist) (Js.toLowerCase artist)
  | None => false
  end.

Definition findTrackByTitleArtist (title : string) (artist : option string)
    : M (option Page) :=
  match artist with
  | None => ret None
  | Some artist =>
      if negb (Js.truthy title) || negb (Js.truthy artist) then ret None
      else
        tryCatch
          (do results <- queryDatabase (TitleContains TRACK_TITLE title);
           ret (List.find (artistMatches artist) results))
          (fun _ => ret None)
  end.

Definition createTrack (trackData : Track) : M Page :=
  tryCatch
    (let properties := buildTrackProperties trackData false in
     if Config.dryRun config
     then ret (mkPage "dry-run-id" properties)
     else pages_create properties)
    (fun error => throw error).

Definition updateTrack (pageId : string) (trackData : Track) : M Page :=
  tryCatch
    (let properties := buildTrackProperties trackData true in
     if Config.dryRun config
     then ret (mkPage pageId properties)
     else pages_update pageId properties)
    (fun error => throw error).

Definition markTrackRemoved (pageId : string) : M Page :=
  tryCatch
    (if Config.dryRun config
     then ret (mkPage pageId ∅)
     else pages_update pageId {[ REMOVED := PCheckbox true ]})
    (fun error => throw error).

End WithConfig.

End NotionClient.

(** ** The music services

    What the orchestrator uses of a music client.  The answers of a service
    do not depend on the state of the sink. *)

Record PlaylistInfo := mkPlaylistInfo {
  pi_name : string;
  pi_trackCount : Z
}.

Record MusicClient := mkMusicClient {
  checkServiceHealth : bool;
  getPlaylist : string -> Result PlaylistInfo;
  getPlaylistTracks : string -> Result (list Track)
}.

(** The pages of a paginated answer, followed through their [next] links;
    a request may fail. *)
Inductive Pages (A : Type) :=
| PageError (e : Error)
| LastPage (items : list A)
| NextPage (items : list A) (next : Pages A).
Arguments PageError {A} e.
Arguments LastPage {A} items.
Arguments NextPage {A} items next.

(** ** spotifyClient.js *)

Module Spotify.

Record RawAlbum := mkRawAlbum {
  album_name : string;
  album_release_date : option string;
  album_label : option string
}.

Record RawTrack := mkRawTrack {
  raw_id : string;
  raw_type : string;
  raw_name : string;
  raw_external_url : option string;     (* external_urls?.spotify *)
  raw_duration_ms : option Z;
  raw_track_number : option Z;
  raw_artists : option (list string);   (* the names of the artists *)
  raw_album : option RawAlbum;
  raw_isrc : option string              (* external_ids?.isrc *)
}.

(** The Spotify Web API, as far as the client reads it. *)
Record Api := mkApi {
  api_token : bool;
  api_playlist : string -> Result PlaylistInfo;
  api_tracks : string -> Pages (option RawTrack)
}.

Section WithApi.
Variable api : Api.

Definition getPlaylist (playlistId : string) : Result PlaylistInfo :=
  api_playlist api playlistId.

Definition processTrackData (track : RawTrack) (playlistId : string)
    : Track :=
  let artists :=
    match raw_artists track with
    | Some (a :: rest) => Some (String.concat ", " (a :: rest))
    | _ => None
    end in
  {| source := "Spotify";
     sourceId := raw_id track;
     title := raw_name track;
     url := raw_external_url track;
     duration :=
       match raw_duration_ms track with
       | Some duration_ms =>
           if duration_ms =? 0 then Js.Null
           else Js.Num (Js.roundDiv duration_ms 1000)
       | None => Js.Null
       end;
     trackNumber := raw_track_number track;
     artist := artists;
     performedBy := artists;
     album := album_name <$> raw_album track;
     releaseDate := raw_album track ≫= album_release_date;
     label := raw_album track ≫= album_label;
     isrc :=
       match raw_isrc track with
       | Some i => if Js.truthy i then Some i else None
       | None => None
       end;
     composer := None;
     genre := None;
     type := Some "Source";
     playlist :=
       match getPlaylist playlistId with
       | Ok info => Some (pi_name info)
       | Throw _ => Some playlistId
       end;
     playlistType := None |}.

Definition processItems (items : list (option RawTrack))
    (playlistId : string) : list Track :=
  omap (fun item =>
          match item with
          | Some track =>
              if decide (raw_type track = "track")
              then Some (processTrackData track playlistId)
              else None
          | None => None
          end) items.

Fixpoint collectPages (ps : Pages (option RawTrack)) (playlistId : string)
    (tracks : list Track) : Result (list Track) :=
  match ps with
  | PageError e => Throw e
  | LastPage items => Ok (tracks ++ processItems items playlistId)
  | NextPage items next =>
      collectPages next playlistId (tracks ++ processItems items playlistId)
  end.

Definition getPlaylistTracks (playlistId : string) : Result (list Track) :=
  collectPages (api_tracks api playlistId) playlistId [].

Definition checkServiceHealth : bool := api_token api.

Definition client : MusicClient :=
  mkMusicClient checkServiceHealth getPlaylist getPlaylistTracks.

End WithApi.

End Spotify.

(** ** appleMusicClient.js *)

Module AppleMusic.

Record Attributes := mkAttributes {
  attr_name : string;
  attr_url : option string;
  attr_durationInMillis : option Z;
  attr_trackNumber : option Z;
  attr_artistName : option string;
  attr_albumName : option string;
  attr_releaseDate : option string;
  attr_recordLabel : option string;
  attr_isrc : option string;
  attr_composerName : option string;
  attr_genreNames : option (list string)
}.

Record RawTrack := mkRawTrack {
  raw_id : string;
  raw_type : string;
  raw_attributes : Attributes
}.

Record Api := mkApi {
  api_health : bool;
  api_playlist : string -> Result PlaylistInfo;
  api_tracks : string -> Pages RawTrack
}.

Definition truthyStr (o : option string) : option string :=
  match o with
  | Some s => if Js.truthy s then Some s else None
  | None => None
  end.

Section WithConfig.
(** The object that [require('./config')] gives. *)
Variable config : Config.value.
Variable api : Api.

Definition getPlaylist (playlistId : string) : Result PlaylistInfo :=
  api_playlist api playlistId.

Definition processTrackData (track : RawTrack) (playlistId : string)
    : Result Track :=
  let attrs := raw_attributes track in
  let duration :=
    match attr_durationInMillis attrs with
    | Some durationInMillis =>
        if durationInMillis =? 0 then Js.Null
        else Js.Num (Js.roundDiv durationInMillis 1000)
    | None => Js.Null
    end in
  (* Playlist information *)
  rbind (Config.getProperty config "playlistTypes") (fun playlistTypes =>
  rbind (Config.getProperty playlistTypes playlistId) (fun entry =>
  let playlistType := Config.orDefault entry "Source" in
  Ok {| source := "Apple Music";
        sourceId := raw_id track;
        title := attr_name attrs;
        url := attr_url attrs;
        duration := duration;
        trackNumber := attr_trackNumber attrs;
        artist := truthyStr (attr_artistName attrs);
        performedBy := truthyStr (attr_artistName attrs);
        album := truthyStr (attr_albumName attrs);
        releaseDate := truthyStr (attr_releaseDate attrs);
        label := truthyStr (attr_recordLabel attrs);
        isrc := truthyStr (attr_isrc attrs);
        composer := truthyStr (attr_composerName attrs);
        genre :=
          match attr_genreNames attrs with
          | Some (g :: rest) => Some (String.concat ", " (g :: rest))
          | _ => None
          end;
        type := Some playlistType;
        playlist :=
          match getPlaylist playlistId with
          | Ok info => Some (pi_name info)
          | Throw _ => Some playlistId
          end;
        playlistType := None |})).

Fixpoint processItems (items : list RawTrack) (playlistId : string)
    (tracks : list Track) : Result (list Track) :=
  match items with
  | [] => Ok tracks
  | track :: rest =>
      if decide (raw_type track = "songs")
      then rbind (processTrackData track playlistId) (fun trackData =>
           processItems rest playlistId (tracks ++ [trackData]))
      else processItems rest playlistId tracks
  end.

Fixpoint collectPages (ps : Pages RawTrack) (playlistId : string)
    (tracks : list Track) : Result (list Track) :=
  match ps with
  | PageError e => Throw e
  | LastPage items => processItems items playlistId tracks
  | NextPage items next =>
      rbind (processItems items playlistId tracks) (fun tracks' =>
      collectPages next playlistId tracks')
  end.

Definition getPlaylistTracks (playlistId : string) : Result (list Track) :=
  collectPages (api_tracks api playlistId) playlistId [].

Definition checkServiceHealth : bool := api_health api.

Definition client : MusicClient :=
  mkMusicClient checkServiceHealth getPlaylist getPlaylistTracks.

End WithConfig.

End AppleMusic.

(** ** syncOrchestrator.js *)

(** The result of syncing one track: ['created'], ['updated'], ['skipped']. *)
Inductive Outcome := Created | Updated | Skipped.

Global Instance Outcome_eq_dec : EqDecision Outcome.
Proof. solve_decision. Defined.

Record Results := mkResults {
  added : nat;
  updated : nat;
  skipped : nat;
  errors : nat;
  tracks : list (string * Outcome)
}.

Record CleanupResults := mkCleanupResults {
  marked : nat;
  cleanup_errors : nat
}.

Record Counts := mkCounts {
  c_added : nat;
  c_updated : nat;
  c_skipped : nat;
  c_errors : nat
}.

Record Total := mkTotal {
  processed : nat;
  successful : nat;
  t_skipped : nat;
  t_errors : nat
}.

Record Summary := mkSummary {
  s_spotify : Counts;
  s_appleMusic : Counts;
  s_total : Total
}.

Record FullResults := mkFullResults {
  sync : Summary;
  cleanup : CleanupResults;
  success : bool
}.

(** [{ ...track, type: playlistType, playlistType: playlistType }] *)
Definition withPlaylistInfo (track : Track) (pt : string) : Track :=
  {| source := source track; sourceId := sourceId track; title := title track;
     url := url track; duration := duration track;
     trackNumber := trackNumber track; artist := artist track;
     performedBy := performedBy track; album := album track;
     releaseDate := releaseDate track; label := label track;
     isrc := isrc track; composer := composer track; genre := genre track;
     type := Some pt; playlist := playlist track; playlistType := Some pt |}.

(** The lookup of the existing page, with which [syncTrackToNotion] starts
    in both revisions of the orchestrator: by ISRC first, then by title and
    artist. *)
Definition findExisting (trackData : Track) : M (option Page) :=
  do existingTrack <-
    (if Js.truthyO (isrc trackData)
     then NotionClient.findTrackByIsrc (isrc trackData)
     else ret None);
  match existingTrack with
  | Some _ => ret existingTrack
  | None =>
      NotionClient.findTrackByTitleArtist (title trackData) (artist trackData)
  end.

(** [results.errors++] *)
Definition countError (results : Results) : Results :=
  mkResults (added results) (updated results) (skipped results)
            (S (errors results)) (tracks results).

Module Orchestrator.

Section WithClients.
Variable config : Config.Exports.
Variable spotifyClient appleMusicClient : MusicClient.

Definition syncTrackToNotion (trackData : Track) : M Outcome :=
  tryCatch
    (do existingTrack <- findExisting trackData;
     match existingTrack with
     | Some _ =>
         (* Skip existing track to preserve manual edits *)
         ret Skipped
     | None =>
         do newPage <- NotionClient.createTrack config trackData;
         ret Created
     end)
    (fun error => throw error).

(** [results.tracks.push(...)] and the counter of the result. *)
Definition record (track : Track) (result : Outcome) (results : Results)
    : Results :=
  let tracks' := tracks results ++ [(title track, result)] in
  match result with
  | Created =>
      mkResults (S (added results)) (updated results) (skipped results)
                (errors results) tracks'
  | Updated =>
      mkResults (added results) (S (updated results)) (skipped results)
                (errors results) tracks'
  | Skipped =>
      mkResults (added results) (updated results) (S (skipped results))
                (errors results) tracks'
  end.

(** The loop [for (const track of tracks)] of the two playlist drivers. *)
Fixpoint syncTracks (playlistType : string) (tracks : list Track)
    (results : Results) : M Results :=
  match tracks with
  | [] => ret results
  | track :: rest =>
      do results <-
        tryCatch
          (let trackWithPlaylistInfo := withPlaylistInfo track playlistType in
           do result <- syncTrackToNotion trackWithPlaylistInfo;
           ret (record track result results))
          (fun error => ret (countError results));
      syncTracks playlistType rest results
  end.

(** The body the two drivers share; they differ in the client they call
    and in the text of their messages. *)
Definition syncPlaylistOf (client : MusicClient) (unavailable : string)
    (playlistId playlistType : string) : M Results :=
  let results := mkResults 0 0 0 0 [] in
  tryCatch
    (let isHealthy := checkServiceHealth client in
     if negb isHealthy then throw (PlainError unavailable)
     else
       do playlist <- lift (getPlaylist client playlistId);
       do tracks <- lift (getPlaylistTracks client playlistId);
       syncTracks playlistType tracks results)
    (fun error => throw error).

Definition syncSpotifyPlaylist (playlistId playlistType : string)
    : M Results :=
  syncPlaylistOf spotifyClient "Spotify service is not available"
                 playlistId playlistType.

Definition syncAppleMusicPlaylist (playlistId playlistType : string)
    : M Results :=
  syncPlaylistOf appleMusicClient "Apple Music service is not available"
                 playlistId playlistType.

Definition addCounts (c : Counts) (result : Results) : Counts :=
  mkCounts (c_added c + added result) (c_updated c + updated result)
           (c_skipped c + skipped result) (c_errors c + errors result).

Definition addTotal (t : Total) (result : Results) : Total :=
  mkTotal (processed t + (added result + updated result))
          (successful t + (added result + updated result))
          (t_skipped t + skipped result) (t_errors t + errors result).

(** The effect of a playlist that synced on the summary. *)
Definition accumulate (service : Config.Service) (result : Results)
    (summary : Summary) : Summary :=
  match service with
  | Config.spotify =>
      mkSummary (addCounts (s_spotify summary) result)
                (s_appleMusic summary) (addTotal (s_total summary) result)
  | Config.appleMusic =>
      mkSummary (s_spotify summary)
                (addCounts (s_appleMusic summary) result)
                (addTotal (s_total summary) result)
  end.

Definition bumpErrors (c : Counts) : Counts :=
  mkCounts (c_added c) (c_updated c) (c_skipped c) (S (c_errors c)).

(** The effect of a playlist that failed on the summary. *)
Definition failed (service : Config.Service) (summary : Summary)
    : Summary :=
  let total := s_total summary in
  let total' :=
    mkTotal (processed total) (successful total) (t_skipped total)
            (S (t_errors total)) in
  match service with
  | Config.spotify =>
      mkSummary (bumpErrors (s_spotify summary)) (s_appleMusic summary) total'
  | Config.appleMusic =>
      mkSummary (s_spotify summary) (bumpErrors (s_appleMusic summary)) total'
  end.

Fixpoint syncPlaylists (configuredPlaylists : list Config.Configured)
    (summary : Summary) : M Summary :=
  match configuredPlaylists with
  | [] => ret summary
  | playlist :: rest =>
      do summary <-
        tryCatch
          (do result <-
             match Config.service playlist with
             | Config.spotify =>
                 syncSpotifyPlaylist (Config.cid playlist) (Config.ctype playlist)
             | Config.appleMusic =>
                 syncAppleMusicPlaylist (Config.cid playlist) (Config.ctype playlist)
             end;
           ret (accumulate (Config.service playlist) result summary))
          (fun error => ret (failed (Config.service playlist) summary));
      syncPlaylists rest summary
  end.

Definition syncAllPlaylists : M Summary :=
  let summary :=
    mkSummary (mkCounts 0 0 0 0) (mkCounts 0 0 0 0) (mkTotal 0 0 0 0) in
  let configuredPlaylists := Config.getAllConfiguredPlaylists config in
  tryCatch (syncPlaylists configuredPlaylists summary)
           (fun error => throw error).

(** The tracks now in the configured playlists, Spotify's first; a
    playlist that cannot be fetched contributes nothing. *)
Fixpoint currentTracks (configuredPlaylists : list Config.Configured)
    (currentSpotifyTracks currentAppleTracks : list Track) : list Track :=
  match configuredPlaylists with
  | [] => currentSpotifyTracks ++ currentAppleTracks
  | playlist :: rest =>
      match Config.service playlist with
      | Config.spotify =>
          match getPlaylistTracks spotifyClient (Config.cid playlist) with
          | Ok tracks =>
              currentTracks rest (currentSpotifyTracks ++ tracks)
                            currentAppleTracks
          | Throw _ =>
              currentTracks rest currentSpotifyTracks currentAppleTracks
          end
      | Config.appleMusic =>
          match getPlaylistTracks appleMusicClient (Config.cid playlist) with
          | Ok tracks =>
              currentTracks rest currentSpotifyTracks
                            (currentAppleTracks ++ tracks)
          | Throw _ =>
              currentTracks rest currentSpotifyTracks currentAppleTracks
          end
      end
  end.

(** [`${title.toLowerCase()}:${artist.toLowerCase()}`] *)
Definition titleArtistKey (title artist : string) : string :=
  Js.toLowerCase title +:+ ":" +:+ Js.toLowerCase artist.

(** The set of current track identifiers.  [track.artist.toLowerCase()]
    is a [TypeError] for a track without artist. *)
Fixpoint currentTrackIds (tracks : list Track) (ids : gset string)
    : Result (gset string) :=
  match tracks with
  | [] => Ok ids
  | track :: rest =>
      let ids :=
        match isrc track with
        | Some i => if Js.truthy i then ids ∪ {[ i ]} else ids
        | None => ids
        end in
      match artist track with
      | Some a =>
          currentTrackIds rest (ids ∪ {[ titleArtistKey (title track) a ]})
      | None =>
          Throw (TypeError "Cannot read properties of undefined")
      end
  end.

Definition has (ids : gset string) (k : string) : bool :=
  bool_decide (k ∈ ids).

(** Skip tracks that were manually added (Link Only or File Upload). *)
Definition manuallyAdded (notionTrack : Page) : bool :=
  let source := selectName notionTrack "Source" in
  bool_decide (source = Some "Link Only")
  || bool_decide (source = Some "File Upload").

(** [trackExists], after the two checks. *)
Definition trackExists (ids : gset string) (notionTrack : Page) : bool :=
  let isrc := richTextContent notionTrack "ISRC/UPC" in
  let title := titleContent notionTrack "Track Title" in
  let artist := richTextContent notionTrack "Artist" in
  let trackExists :=
    Js.truthyO isrc && has ids (default "" isrc) in
  if negb trackExists && Js.truthyO title && Js.truthyO artist
  then
    let titleArtistKey :=
      titleArtistKey (default "" title) (default "" artist) in
    if has ids titleArtistKey then true else trackExists
  else trackExists.

Definition countMarked (results : CleanupResults) : CleanupResults :=
  mkCleanupResults (S (marked results)) (cleanup_errors results).

Definition countCleanupError (results : CleanupResults) : CleanupResults :=
  mkCleanupResults (marked results) (S (cleanup_errors results)).

(** The loop [for (const notionTrack of allNotionTracks)]. *)
Fixpoint checkTracks (ids : gset string) (allNotionTracks : list Page)
    (results : CleanupResults) : M CleanupResults :=
  match allNotionTracks with
  | [] => ret results
  | notionTrack :: rest =>
      do results <-
        tryCatch
          (if manuallyAdded notionTrack then ret results
           else if negb (trackExists ids notionTrack)
           then
             do _ <- NotionClient.markTrackRemoved config (id notionTrack);
             ret (countMarked results)
           else ret results)
          (fun error => ret (countCleanupError results));
      checkTracks ids rest results
  end.

Definition cleanupRemovedTracks : M CleanupResults :=
  let results := mkCleanupResults 0 0 in
  tryCatch
    (do allNotionTracks <-
       NotionClient.queryDatabase (CheckboxEquals "Removed" false);
     let configuredPlaylists := Config.getAllConfiguredPlaylists config in
     let current := currentTracks configuredPlaylists [] [] in
     do ids <- lift (currentTrackIds current ∅);
     checkTracks ids allNotionTracks results)
    (fun error => throw error).

Definition fullSync : M FullResults :=
  tryCatch
    (do syncResults <- syncAllPlaylists;
     do cleanupResults <- cleanupRemovedTracks;
     ret (mkFullResults syncResults cleanupResults true))
    (fun error => throw error).

End WithClients.

End Orchestrator.

(** ** syncOrchestrator.js, earlier revision

    The revision of the orchestrator that updates an existing page.  Its
    drivers take the playlist from the configuration of that revision
    ([config.spotify.playlistId], [config.appleMusic.playlistId]), do not
    override the type of the track and keep no counter of skipped tracks. *)

Module EarlierOrchestrator.

Section WithClients.
Variable config : Config.Exports.
Variable spotifyClient appleMusicClient : MusicClient.
Variable spotifyPlaylistId appleMusicPlaylistId : string.

Definition syncTrackToNotion (trackData : Track) : M Outcome :=
  tryCatch
    (do existingTrack <- findExisting trackData;
     match existingTrack with
     | Some existingTrack =>
         (* Update existing track *)
         do _ <- NotionClient.updateTrack config (id existingTrack) trackData;
         ret Updated
     | None =>
         do newPage <- NotionClient.createTrack config trackData;
         ret Created
     end)
    (fun error => throw error).

Definition record (track : Track) (result : Outcome) (results : Results)
    : Results :=
  let tracks' := tracks results ++ [(title track, result)] in
  match result with
  | Created =>
      mkResults (S (added results)) (updated results) (skipped results)
                (errors results) tracks'
  | Updated =>
      mkResults (added results) (S (updated results)) (skipped results)
                (errors results) tracks'
  | Skipped =>
      mkResults (added results) (updated results) (skipped results)
                (errors results) tracks'
  end.

Fixpoint syncTracks (tracks : list Track) (results : Results) : M Results :=
  match tracks with
  | [] => ret results
  | track :: rest =>
      do results <-
        tryCatch
          (do result <- syncTrackToNotion track;
           ret (record track result results))
          (fun error => ret (countError results));
      syncTracks rest results
  end.

Definition syncPlaylistOf (client : MusicClient) (unavailable : string)
    (playlistId : string) : M Results :=
  let results := mkResults 0 0 0 0 [] in
  tryCatch
    (let isHealthy := checkServiceHealth client in
     if negb isHealthy then throw (PlainError unavailable)
     else
       do playlist <- lift (getPlaylist client playlistId);
       do tracks <- lift (getPlaylistTracks client playlistId);
       syncTracks tracks results)
    (fun error => throw error).

Definition syncSpotifyPlaylist : M Results :=
  syncPlaylistOf spotifyClient "Spotify service is not available"
                 spotifyPlaylistId.

Definition syncAppleMusicPlaylist : M Results :=
  syncPlaylistOf appleMusicClient "Apple Music service is not available"
                 appleMusicPlaylistId.

End WithClients.

End EarlierOrchestrator.

(** ** Sample data *)

Module Sample.

Definition track (t : string) (a i : option string) : Track :=
  {| source := "Spotify"; sourceId := "id-" +:+ t; title := t;
     url := None; duration := Js.Num 200; trackNumber := Some 1;
     artist := a; performedBy := a; album := Some "Album";
     releaseDate := Some "2020-05-01"; label := None; isrc := i;
     composer := None; genre := None; type := Some "Source";
     playlist := Some "Mix"; playlistType := None |}.

Definition waterloo := track "Waterloo" (Some "ABBA") (Some "SEABC7400001").
Definition heroes := track "Heroes" (Some "David Bowie") (Some "GBAYE7700001").
Definition hurt := track "Hurt" (Some "Johnny Cash") (Some "USUM70200001").
Definition jolene := track "Jolene" (Some "Dolly Parton") None.
Definition azul := track "Azul" (Some "Zoe") None.

(** A page of the sink with the given identifier and texts, and a note
    written by hand. *)
Definition page (i t a c : string) : Page :=
  mkPage i
    (<[Schema.TRACK_TITLE := PTitle (Some t)]>
     (<[Schema.ARTIST := PRichText (Some a)]>
      (<[Schema.ISRC_UPC := PRichText (Some c)]>
       (<[Schema.NOTES := PRichText (Some "opening scene")]>
        (<[Schema.DURATION := PRichText (Some "9:99")]>
         (<[Schema.REMOVED := PCheckbox true]> ∅)))))).

Definition never : nat -> bool := fun _ => false.

Definition p1 : Page := page "p1" "Waterloo" "ABBA" "SEABC7400001".
Definition p2 : Page := page "p2" "Heroes" "David Bowie" "GBAYE7700001".

(** A sink that already holds Waterloo and Heroes. *)
Definition sink2 : World := mkWorld [p2; p1] 0 0 never.


Definition emptySink : World := mkWorld [] 0 0 never.

Definition live (dry : bool) : Config.Exports :=
  Config.mkExports
    (Config.mkPlaylists (Config.mkPlaylistEntry "sp-1" "Source")
                        (Config.mkPlaylistEntry "" "Score"))
    "" "us"
    (Config.mkPlaylists (Config.mkPlaylistEntry "" "Source")
                        (Config.mkPlaylistEntry "" "Score"))
    "info" dry.

(** A client whose playlist holds the given tracks. *)
Definition clientOf (ts : list Track) : MusicClient :=
  mkMusicClient true (fun _ => Ok (mkPlaylistInfo "Mix" (Z.of_nat (length ts))))
                (fun _ => Ok ts).

Definition down : MusicClient :=
  mkMusicClient false (fun _ => Throw (PlainError "down"))
                (fun _ => Throw (PlainError "down")).

End Sample.

Definition counts (r : Results) : nat * nat * nat * nat :=
  (added r, updated r, skipped r, errors r).

Definition ranOk {A} (x : Result A * World) : bool := isOk (fst x).


(** ** The resolution of a track, as the specification words it *)

Definition storedIsrc (p : Page) : string :=
  default "" (richTextContent p Schema.ISRC_UPC).

Definition storedTitle (p : Page) : string :=
  default "" (titleContent p Schema.TRACK_TITLE).

Definition storedArtist (p : Page) : string :=
  default "" (richTextContent p Schema.ARTIST).

(** The stored ISRC contains the ISRC of the track. *)
Definition isrcMatch (i : string) (p : Page) : bool :=
  Js.includes (storedIsrc p) i.

(** The stored title contains the title of the track, and the stored artist,
    lowercased, contains the artist of the track, lowercased. *)
Definition titleArtistMatch (t a : string) (p : Page) : bool :=
  Js.includes (storedTitle p) t
  && Js.includes (Js.toLowerCase (storedArtist p)) (Js.toLowerCase a).

(** Step 1 of the resolution: the first page, in the order of the sink,
    whose ISRC contains that of the track. *)
Definition resolveByIsrc (t : Track) (sink : list Page) : option Page :=
  match isrc t with
  | Some i => if Js.truthy i then List.find (isrcMatch i) sink else None
  | None => None
  end.


(** The resolution with the guard of the client: step 2 applies to a track
    that has a title and an artist. *)
Definition resolveGuarded (t : Track) (sink : list Page) : option Page :=
  match resolveByIsrc t sink with
  | Some p => Some p
  | None =>
      match artist t with
      | Some a =>
          if Js.truthy (title t) && Js.truthy a
          then List.find (titleArtistMatch (title t) a) sink
          else None
      | None => None
      end
  end.

(** The value of a result that is no error. *)
Definition given {A} (r : Result A) : option A :=
  match r with
  | Ok a => Some a
  | Throw _ => None
  end.

(** The value an asynchronous call returned, if it returned. *)
Definition returned {A} (x : Result A * World) : option A := given (fst x).

(** The error an asynchronous call threw, if it threw. *)
Definition thrown {A} (x : Result A * World) : option Error :=
  match fst x with
  | Ok _ => None
  | Throw e => Some e
  end.

(** Two worlds that differ in the number of requests made, at most. *)
Definition sameSink (w w' : World) : Prop :=
  pages w' = pages w /\ nextId w' = nextId w /\ fails w' = fails w
  /\ (tick w <= tick w')%nat.

(** The page a creation adds to the world, and the world after it. *)
Definition createdPage (t : Track) (w : World) : Page :=
  mkPage ("page-" +:+ pretty (nextId w))
         (NotionClient.buildTrackProperties t false).

Definition withNew (p : Page) (w : World) : World :=
  mkWorld (p :: pages w) (S (nextId w)) (S (tick w)) (fails w).

(** The world after a successful update of the page [pageId]. *)
Definition withPatch (pageId : string) (props : gmap string PropValue)
    (w : World) : World :=
  mkWorld (patchPage pageId props <$> pages w) (nextId w) (S (tick w))
          (fails w).

Definition emptyResults : Results := mkResults 0 0 0 0 [].

(** The number of tracks a driver has dealt with. *)
Definition handled (r : Results) : nat :=
  (added r + updated r + skipped r + errors r)%nat.

(** A configuration that differs in the dry-run flag only. *)
Definition withDryRun (b : bool) (c : Config.Exports) : Config.Exports :=
  Config.mkExports (Config.spotify_playlists c) (Config.appleMusic_userToken c)
    (Config.appleMusic_storefront c) (Config.appleMusic_playlists c)
    (Config.logLevel c) b.

(** The five tracks of the scenario of a failing write, and a sink whose
    fifth request fails: the creation of the third track. *)
Definition fiveTracks : list Track :=
  [Sample.waterloo; Sample.heroes; Sample.hurt; Sample.jolene; Sample.azul].

Definition failingFifth : World :=
  mkWorld [Sample.p2; Sample.p1] 0 0 (fun n => bool_decide (n = 4%nat)).

(** A computation that leaves the sink as it is, whatever it returns. *)
Definition keepsSink {A} (m : M A) : Prop :=
  forall w, sameSink w (snd (m w)).





(** The fields [buildTrackProperties] may write. *)
Definition writtenFields : list string :=
  [ Schema.TRACK_TITLE; Schema.TRACK_NUMBER; Schema.ALBUM; Schema.ARTIST;
    Schema.PERFORMED_BY; Schema.RELEASE_DATE; Schema.DURATION;
    Schema.ISRC_UPC; Schema.URL; Schema.PLAYLIST; Schema.TYPE;
    Schema.COMPOSER; Schema.REMOVED ].

(** The scenario of three tracks, two of them in the sink by their ISRC. *)
Definition threeTracks : list Track :=
  [Sample.waterloo; Sample.heroes; Sample.hurt].

(** A track the resolver can find again: it has an ISRC, or a title and an
    artist. *)
Definition identifiable (t : Track) : bool :=
  Js.truthyO (isrc t) || (Js.truthy (title t) && Js.truthyO (artist t)).

(** The sink of [w'] is the sink of [w] with newer pages in front. *)
Definition extends (w w' : World) : Prop :=
  (exists newer, pages w' = newer ++ pages w)
  /\ fails w' = fails w /\ (tick w <= tick w')%nat.

(** A track without ISRC and without artist. *)
Definition untitledArtist : Track := Sample.track "Intro" None None.

(** ** The cleanup, as the specification words it *)

(** The properties a removal mark writes, and the page after the mark. *)
Definition removedProps : gmap string PropValue :=
  {[ Schema.REMOVED := PCheckbox true ]}.

Definition markedPage (p : Page) : Page := patch removedProps p.






(** A record the cleanup decides to mark. *)
Definition stale (ids : gset string) (p : Page) : bool :=
  negb (Orchestrator.manuallyAdded p) && negb (Orchestrator.trackExists ids p).

(** The pages after the marks of the pages whose identifier is in [marks]. *)
Definition mark (marks : list string) (p : Page) : Page :=
  if bool_decide (id p ∈ marks) then markedPage p else p.

(** The live tracks the cleanup fetches. *)
Definition liveTracks (config : Config.Exports) (sp am : MusicClient)
    : list Track :=
  Orchestrator.currentTracks sp am
    (Config.getAllConfiguredPlaylists config) [] [].

(** A sink for the cleanup: a record that is live by its ISRC, one that is
    live by its composite key, one that is in no playlist any more, and one
    that was entered by hand. *)
Definition record (i t a : string) (c src : option string) : Page :=
  mkPage i
    (<[Schema.TRACK_TITLE := PTitle (Some t)]>
     (<[Schema.ARTIST := PRichText (Some a)]>
      (<[Schema.ISRC_UPC := PRichText c]>
       (<["Source" := PSelect src]>
        (<[Schema.REMOVED := PCheckbox false]> ∅))))).

Definition liveByIsrc : Page :=
  record "r1" "Waterloo (Remastered)" "Abba" (Some "SEABC7400001")
         (Some "Spotify").
Definition liveByKey : Page :=
  record "r2" "JOLENE" "Dolly Parton" None (Some "Spotify").
Definition gone : Page :=
  record "r3" "Old Song" "Nobody" (Some "XX0000000001") (Some "Spotify").
Definition byHand : Page :=
  record "r4" "Temp Cue" "In House" None (Some "Link Only").

Definition cleanupSink : World :=
  mkWorld [byHand; gone; liveByKey; liveByIsrc] 0 0 Sample.never.

Definition twoLive : list Track := [Sample.waterloo; Sample.jolene].

(** A sink whose fourth request fails: after the three requests of the sync
    of one new track, the first query of the cleanup. *)
Definition failingCleanupQuery : World :=
  mkWorld [] 0 0 (fun n => bool_decide (n = 3%nat)).

(** A sink of which every request fails but the first. *)
Definition onlyFirstSucceeds : World :=
  mkWorld [byHand; gone; liveByKey; liveByIsrc] 0 0
          (fun n => bool_decide (n <> 0%nat)).

(** ** Sample answers of the music services *)

Definition spotifyApi : Spotify.Api :=
  Spotify.mkApi true (fun _ => Ok (mkPlaylistInfo "Mix" 1))
                (fun _ => LastPage []).

Definition spotifyRaw (ms : option Z) : Spotify.RawTrack :=
  Spotify.mkRawTrack "4uLU6hMCjMI75M1A2tKUQC" "track" "Heroes" None ms (Some 3)
    (Some ["David Bowie"]) (Some (Spotify.mkRawAlbum "Heroes" (Some "1977-10-14") None))
    (Some "GBAYE7700001").

Definition appleRaw (ms : option Z) : AppleMusic.RawTrack :=
  AppleMusic.mkRawTrack "1440857781" "songs"
    (AppleMusic.mkAttributes "Heroes" None ms (Some 3) (Some "David Bowie")
       (Some "Heroes") (Some "1977-10-14") None (Some "GBAYE7700001") None
       None).

Definition appleApi (songs : list AppleMusic.RawTrack) : AppleMusic.Api :=
  AppleMusic.mkApi true (fun _ => Ok (mkPlaylistInfo "Mix" 1))
                   (fun _ => LastPage songs).

(** The object the configuration of the first revision exports, which has
    the property [playlistTypes]. *)
Definition firstConfig : Config.value :=
  Config.VObject
    [ ("playlistTypes", Config.VObject [("pl.1", Config.VString "Score")]);
      ("config", Config.VObject [("dryRun", Config.VBool false)]) ].

(** ** Further reference definitions *)

(** The totals of a summary are the sums of the counts of the two services. *)
Definition balanced (s : Summary) : Prop :=
  t_errors (s_total s)
  = (c_errors (s_spotify s) + c_errors (s_appleMusic s))%nat
  /\ t_skipped (s_total s)
     = (c_skipped (s_spotify s) + c_skipped (s_appleMusic s))%nat
  /\ processed (s_total s)
     = (c_added (s_spotify s) + c_updated (s_spotify s)
        + (c_added (s_appleMusic s) + c_updated (s_appleMusic s)))%nat
  /\ successful (s_total s) = processed (s_total s).

(** The client a configured playlist is fetched with. *)
Definition clientOf (sp am : MusicClient) (p : Config.Configured)
    : MusicClient :=
  match Config.service p with
  | Config.spotify => sp
  | Config.appleMusic => am
  end.

(** The service answers for a playlist: it is healthy, and the playlist and
    its tracks can be fetched. *)
Definition available (client : MusicClient) (pid : string) : bool :=
  checkServiceHealth client && isOk (getPlaylist client pid)
  && isOk (getPlaylistTracks client pid).

(** A playlist with one track that has no artist. *)
Definition oneWithoutArtist : MusicClient :=
  Sample.clientOf [Sample.waterloo; untitledArtist].

(** The pages a run puts in front of the sink: none in a dry run. *)
Definition newPages (config : Config.Exports) (n : nat) : nat :=
  if Config.dryRun config then 0%nat else n.

(** The tracks a summary counts as added. *)
Definition addedOf (s : Summary) : nat :=
  (c_added (s_spotify s) + c_added (s_appleMusic s))%nat.

(** The records the cleanup examines, and those of them it decides to
    mark. *)
Definition examined (w : World) : list Page :=
  List.filter (matchesFilter (CheckboxEquals "Removed" false)) (pages w).

Definition staleRecords (ids : gset string) (w : World) : list Page :=
  List.filter (stale ids) (examined w).

(** A client none of whose playlists can be fetched. *)
Definition unreachable : MusicClient :=
  mkMusicClient true (fun _ => Throw (PlainError "no answer"))
                (fun _ => Throw (PlainError "no answer")).

(** * Properties *)

Section JsFacts.

Lemma prefix_refl (s : string) : String.prefix s s = true.
Proof.
  induction s as [|c s IH]; simpl; [done|].
  destruct (Ascii.ascii_dec c c); [exact IH | congruence].
Qed.

Lemma includes_refl (s : string) : Js.includes s s = true.
Proof. destruct s; [done|]. cbn [Js.includes]. by rewrite prefix_refl. Qed.

End JsFacts.

Section JsMore.

Lemma prefix_empty_r (s : string) : String.prefix s "" = negb (Js.truthy s).
Proof. by destruct s. Qed.

Lemma includes_empty_l (s : string) : Js.includes "" s = negb (Js.truthy s).
Proof. cbn [Js.includes]. rewrite prefix_empty_r. by destruct (Js.truthy s). Qed.

Lemma toLowerCase_truthy (s : string) :
  Js.truthy (Js.toLowerCase s) = Js.truthy s.
Proof. by destruct s. Qed.

Lemma truthy_true (s : string) : Js.truthy s = true <-> s <> "".
Proof. destruct s; simpl; split; congruence. Qed.

End JsMore.

Section ListFacts.
Context {A : Type}.

Lemma head_filter_find (P : A -> bool) (l : list A) :
  head (List.filter P l) = List.find P l.
Proof.
  induction l as [|x l IH]; simpl; [done|].
  destruct (P x); simpl; auto.
Qed.

Lemma find_filter (P Q : A -> bool) (l : list A) :
  List.find Q (List.filter P l) = List.find (fun x => P x && Q x) l.
Proof.
  induction l as [|x l IH]; simpl; [done|].
  destruct (P x); simpl; [destruct (Q x)|]; auto.
Qed.

Lemma find_ext (P Q : A -> bool) (l : list A) :
  (forall x, P x = Q x) -> List.find P l = List.find Q l.
Proof.
  intros E. induction l as [|x l IH]; simpl; [done|].
  rewrite E, IH. done.
Qed.

Lemma find_app_some (P : A -> bool) (l1 l2 : list A) :
  is_Some (List.find P l2) -> is_Some (List.find P (l1 ++ l2)).
Proof.
  intros H. induction l1 as [|x l1 IH]; simpl; [done|].
  destruct (P x); eauto.
Qed.

Lemma find_some_first (P : A -> bool) (l : list A) (x : A) :
  List.find P l = Some x ->
  exists l1 l2,
    l = l1 ++ x :: l2 /\ P x = true /\ Forall (fun y => P y = false) l1.
Proof.
  induction l as [|y l IH]; simpl; [done|].
  destruct (P y) eqn:E.
  - intros [= ->]. exists [], l. auto.
  - intros H. destruct (IH H) as (l1 & l2 & -> & Hx & Hl).
    exists (y :: l1), l2. auto.
Qed.


Lemma find_some_elem (P : A -> bool) (l : list A) (x : A) :
  List.find P l = Some x -> x ∈ l.
Proof.
  intros H. destruct (find_some_first P l x H) as (l1 & l2 & -> & _).
  set_solver.
Qed.

End ListFacts.

(** *** The lookups of the client *)

Arguments NotionClient.queryDatabase : simpl never.
Arguments NotionClient.findTrackByIsrc : simpl never.
Arguments NotionClient.findTrackByTitleArtist : simpl never.
Arguments NotionClient.createTrack : simpl never.
Arguments NotionClient.updateTrack : simpl never.
Arguments NotionClient.markTrackRemoved : simpl never.
Arguments NotionClient.buildTrackProperties : simpl never.
Arguments findExisting : simpl never.

Section Lookups.

Lemma queryDatabase_run (f : Filter) (w : World) :
  NotionClient.queryDatabase f w =
  if fails w (tick w)
  then (Throw (ApiError "request failed"), ticked w)
  else (Ok (List.filter (matchesFilter f) (pages w)), ticked w).
Proof.
  unfold NotionClient.queryDatabase, tryCatch, databases_query, bind, request, throw.
  destruct (fails w (tick w)); reflexivity.
Qed.

Lemma findTrackByIsrc_run (i : string) (w : World) :
  Js.truthy i = true ->
  NotionClient.findTrackByIsrc (Some i) w =
  (Ok (if fails w (tick w) then None else List.find (isrcMatch i) (pages w)),
   ticked w).
Proof.
  intros Hi. unfold NotionClient.findTrackByIsrc. rewrite Hi. simpl.
  unfold tryCatch, bind. rewrite queryDatabase_run.
  destruct (fails w (tick w)); [reflexivity|].
  rewrite <- head_filter_find.
  change (matchesFilter (RichTextContains Schema.ISRC_UPC i)) with (isrcMatch i).
  destruct (List.filter (isrcMatch i) (pages w)); reflexivity.
Qed.

Lemma artistMatches_stated (a : string) (p : Page) :
  Js.truthy a = true ->
  NotionClient.artistMatches a p =
  Js.includes (Js.toLowerCase (storedArtist p)) (Js.toLowerCase a).
Proof.
  intros Ha. unfold NotionClient.artistMatches, storedArtist.
  assert (E : Js.includes "" (Js.toLowerCase a) = false).
  { by rewrite includes_empty_l, toLowerCase_truthy, Ha. }
  destruct (richTextContent p Schema.ARTIST) as [[|c e]|];
    cbn [default Js.truthy andb Js.toLowerCase]; by rewrite ?E.
Qed.

Lemma findTrackByTitleArtist_run (t a : string) (w : World) :
  Js.truthy t = true -> Js.truthy a = true ->
  NotionClient.findTrackByTitleArtist t (Some a) w =
  (Ok (if fails w (tick w) then None
       else List.find (titleArtistMatch t a) (pages w)),
   ticked w).
Proof.
  intros Ht Ha. unfold NotionClient.findTrackByTitleArtist.
  rewrite Ht, Ha. simpl. unfold tryCatch, bind. rewrite queryDatabase_run.
  destruct (fails w (tick w)); [reflexivity|].
  unfold ret. rewrite find_filter. f_equal. f_equal.
  apply find_ext. intros p. unfold titleArtistMatch.
  rewrite artistMatches_stated by done. reflexivity.
Qed.

End Lookups.

Section SameSink.

Lemma sameSink_refl (w : World) : sameSink w w.
Proof. unfold sameSink. auto. Qed.

Lemma sameSink_ticked (w : World) : sameSink w (ticked w).
Proof. unfold sameSink, ticked. simpl. auto with lia. Qed.

Lemma sameSink_trans (w1 w2 w3 : World) :
  sameSink w1 w2 -> sameSink w2 w3 -> sameSink w1 w3.
Proof.
  unfold sameSink. intros (?&?&?&?) (?&?&?&?).
  repeat split; try congruence. lia.
Qed.

End SameSink.

Section Resolution.

Lemma findTrackByIsrc_total (i : option string) (w : World) :
  exists r w',
    NotionClient.findTrackByIsrc i w = (Ok r, w') /\ sameSink w w'
    /\ (fails w (tick w) = true -> r = None).
Proof.
  destruct i as [s|]; [destruct (Js.truthy s) eqn:E|].
  - rewrite findTrackByIsrc_run by done.
    eexists _, _. split; [reflexivity|]. split; [apply sameSink_ticked|].
    by intros ->.
  - unfold NotionClient.findTrackByIsrc. rewrite E. simpl.
    eexists _, _. split; [reflexivity|]. split; [apply sameSink_refl|done].
  - eexists _, _. split; [reflexivity|]. split; [apply sameSink_refl|done].
Qed.

Lemma findTrackByTitleArtist_total (t : string) (a : option string)
    (w : World) :
  exists r w',
    NotionClient.findTrackByTitleArtist t a w = (Ok r, w') /\ sameSink w w'
    /\ (fails w (tick w) = true -> r = None).
Proof.
  destruct a as [a|];
    [destruct (Js.truthy t) eqn:Et; [destruct (Js.truthy a) eqn:Ea|]|].
  - rewrite findTrackByTitleArtist_run by done.
    eexists _, _. split; [reflexivity|]. split; [apply sameSink_ticked|].
    by intros ->.
  - unfold NotionClient.findTrackByTitleArtist. rewrite Et, Ea. simpl.
    eexists _, _. split; [reflexivity|]. split; [apply sameSink_refl|done].
  - unfold NotionClient.findTrackByTitleArtist. rewrite Et. simpl.
    eexists _, _. split; [reflexivity|]. split; [apply sameSink_refl|done].
  - eexists _, _. split; [reflexivity|]. split; [apply sameSink_refl|done].
Qed.

(** What the title and artist lookup returns when its query succeeds. *)
Lemma findTrackByTitleArtist_guarded (t : Track) (w : World) :
  fails w (tick w) = false ->
  exists w',
    NotionClient.findTrackByTitleArtist (title t) (artist t) w =
    (Ok match artist t with
        | Some a =>
            if Js.truthy (title t) && Js.truthy a
            then List.find (titleArtistMatch (title t) a) (pages w)
            else None
        | None => None
        end, w')
    /\ sameSink w w'.
Proof.
  intros F.
  destruct (artist t) as [a|];
    [destruct (Js.truthy (title t)) eqn:Et; [destruct (Js.truthy a) eqn:Ea|]|].
  - rewrite findTrackByTitleArtist_run, F by done.
    eexists. split; [reflexivity|apply sameSink_ticked].
  - unfold NotionClient.findTrackByTitleArtist. rewrite Et, Ea. simpl.
    eexists. split; [reflexivity|apply sameSink_refl].
  - unfold NotionClient.findTrackByTitleArtist. rewrite Et. simpl.
    eexists. split; [reflexivity|apply sameSink_refl].
  - eexists. split; [reflexivity|apply sameSink_refl].
Qed.

(** The lookup of an existing page always returns, and without failing
    query it returns the guarded resolution. *)
Lemma findExisting_total (t : Track) (w : World) :
  exists r w',
    findExisting t w = (Ok r, w') /\ sameSink w w'
    /\ (fails w (tick w) = true -> fails w (S (tick w)) = true -> r = None)
    /\ (r <> None -> is_Some (resolveGuarded t (pages w))).
Proof.
  unfold findExisting, bind, resolveGuarded, resolveByIsrc.
  destruct (isrc t) as [i|]; simpl;
    [destruct (Js.truthy i) eqn:Ei|].
  - rewrite findTrackByIsrc_run by done.
    destruct (fails w (tick w)) eqn:F1.
    + destruct (findTrackByTitleArtist_total (title t) (artist t) (ticked w))
        as (r & w' & E & HS & N).
      rewrite E. exists r, w'. split; [done|].
      split; [eapply sameSink_trans; [apply sameSink_ticked|done]|].
      split; [intros _ F2; apply N; exact F2|].
      intros Hr. destruct (List.find (isrcMatch i) (pages w)); [eauto|].
      destruct (fails w (S (tick w))) eqn:F2; [destruct Hr; by apply N|].
      destruct (findTrackByTitleArtist_guarded t (ticked w) F2) as (w2 & E2 & _).
      rewrite E2 in E. simplify_eq. by apply not_eq_None_Some.
    + destruct (List.find (isrcMatch i) (pages w)) as [p|] eqn:Ef.
      * exists (Some p), (ticked w). unfold ret.
        split; [done|]. split; [apply sameSink_ticked|]. split; [done|eauto].
      * destruct (findTrackByTitleArtist_total (title t) (artist t) (ticked w))
          as (r & w' & E & HS & N).
        rewrite E. exists r, w'. split; [done|].
        split; [eapply sameSink_trans; [apply sameSink_ticked|done]|].
        split; [done|]. intros Hr.
        destruct (fails w (S (tick w))) eqn:F2; [destruct Hr; by apply N|].
        destruct (findTrackByTitleArtist_guarded t (ticked w) F2) as (w2 & E2 & _).
        rewrite E2 in E. simplify_eq. by apply not_eq_None_Some.
  - unfold ret.
    destruct (findTrackByTitleArtist_total (title t) (artist t) w)
      as (r & w' & E & HS & N).
    rewrite E. exists r, w'. split; [done|]. split; [done|].
    split; [intros F1 _; by apply N|]. intros Hr.
    destruct (fails w (tick w)) eqn:F1; [destruct Hr; by apply N|].
    destruct (findTrackByTitleArtist_guarded t w F1) as (w2 & E2 & _).
    rewrite E2 in E. simplify_eq. by apply not_eq_None_Some.
  - unfold ret.
    destruct (findTrackByTitleArtist_total (title t) (artist t) w)
      as (r & w' & E & HS & N).
    rewrite E. exists r, w'. split; [done|]. split; [done|].
    split; [intros F1 _; by apply N|]. intros Hr.
    destruct (fails w (tick w)) eqn:F1; [destruct Hr; by apply N|].
    destruct (findTrackByTitleArtist_guarded t w F1) as (w2 & E2 & _).
    rewrite E2 in E. simplify_eq. by apply not_eq_None_Some.
Qed.

Lemma findExisting_guarded (t : Track) (w : World) :
  fails w (tick w) = false -> fails w (S (tick w)) = false ->
  exists w',
    findExisting t w = (Ok (resolveGuarded t (pages w)), w') /\ sameSink w w'.
Proof.
  intros F1 F2.
  unfold findExisting, bind, resolveGuarded, resolveByIsrc.
  destruct (isrc t) as [i|]; simpl;
    [destruct (Js.truthy i) eqn:Ei|].
  - rewrite findTrackByIsrc_run, F1 by done.
    destruct (List.find (isrcMatch i) (pages w)) as [p|] eqn:Ef.
    + eexists. split; [reflexivity|apply sameSink_ticked].
    + destruct (findTrackByTitleArtist_guarded t (ticked w) F2) as (w2 & E2 & HS2).
      rewrite E2. exists w2. split; [done|].
      eapply sameSink_trans; [apply sameSink_ticked|done].
  - unfold ret. apply findTrackByTitleArtist_guarded, F1.
  - unfold ret. apply findTrackByTitleArtist_guarded, F1.
Qed.

End Resolution.

(** ** The Identity Resolver *)

(** C8. Resolution never throws.  For every track and every state of the
    sink, the lookup by ISRC returns, the lookup by title and artist returns,
    and the lookup of the existing page that combines them returns; none of
    them changes the sink.  A lookup whose query fails returns no match, and
    when the queries of both lookups fail the resolution returns null. *)
Theorem resolution_never_throws (t : Track) (w : World) :
  (exists r w',
     NotionClient.findTrackByIsrc (isrc t) w = (Ok r, w') /\ sameSink w w'
     /\ (fails w (tick w) = true -> r = None))
  /\ (exists r w',
        NotionClient.findTrackByTitleArtist (title t) (artist t) w = (Ok r, w')
        /\ sameSink w w' /\ (fails w (tick w) = true -> r = None))
  /\ (exists r w',
        findExisting t w = (Ok r, w') /\ sameSink w w'
        /\ (fails w (tick w) = true -> fails w (S (tick w)) = true ->
            r = None)).
Proof.
  split; [apply findTrackByIsrc_total|].
  split; [apply findTrackByTitleArtist_total|].
  destruct (findExisting_total t w) as (r & w' & E & HS & N & _).
  exists r, w'. auto.
Qed.






(** *** The writes of the client *)

Section Writes.
Variable config : Config.Exports.

Lemma createTrack_run (t : Track) (w : World) :
  NotionClient.createTrack config t w =
  if Config.dryRun config
  then (Ok (mkPage "dry-run-id" (NotionClient.buildTrackProperties t false)), w)
  else if fails w (tick w)
       then (Throw (ApiError "request failed"), ticked w)
       else (Ok (createdPage t w), withNew (createdPage t w) w).
Proof.
  unfold NotionClient.createTrack, tryCatch, pages_create, bind, request,
    throw, ret.
  destruct (Config.dryRun config); [reflexivity|].
  destruct (fails w (tick w)); reflexivity.
Qed.

Lemma updateTrack_run (pageId : string) (t : Track) (w : World) :
  NotionClient.updateTrack config pageId t w =
  if Config.dryRun config
  then (Ok (mkPage pageId (NotionClient.buildTrackProperties t true)), w)
  else if fails w (tick w)
       then (Throw (ApiError "request failed"), ticked w)
       else match List.find (fun p => bool_decide (id p = pageId)) (pages w) with
            | Some p =>
                (Ok (patch (NotionClient.buildTrackProperties t true) p),
                 withPatch pageId (NotionClient.buildTrackProperties t true) w)
            | None => (Throw (ApiError "object not found"), ticked w)
            end.
Proof.
  unfold NotionClient.updateTrack, tryCatch, pages_update, bind, request,
    throw, ret.
  destruct (Config.dryRun config); [reflexivity|].
  destruct (fails w (tick w)); [reflexivity|]. simpl.
  destruct (List.find _ (pages w)); reflexivity.
Qed.

Lemma markTrackRemoved_run (pageId : string) (w : World) :
  NotionClient.markTrackRemoved config pageId w =
  if Config.dryRun config
  then (Ok (mkPage pageId ∅), w)
  else if fails w (tick w)
       then (Throw (ApiError "request failed"), ticked w)
       else match List.find (fun p => bool_decide (id p = pageId)) (pages w) with
            | Some p =>
                (Ok (patch {[ Schema.REMOVED := PCheckbox true ]} p),
                 withPatch pageId {[ Schema.REMOVED := PCheckbox true ]} w)
            | None => (Throw (ApiError "object not found"), ticked w)
            end.
Proof.
  unfold NotionClient.markTrackRemoved, tryCatch, pages_update, bind, request,
    throw, ret.
  destruct (Config.dryRun config); [reflexivity|].
  destruct (fails w (tick w)); [reflexivity|]. simpl.
  destruct (List.find _ (pages w)); reflexivity.
Qed.

(** The current orchestrator on one track, given what the lookup returned. *)
Lemma syncTrackToNotion_run (t : Track) (w w1 : World) (r : option Page) :
  findExisting t w = (Ok r, w1) ->
  Orchestrator.syncTrackToNotion config t w =
  match r with
  | Some _ => (Ok Skipped, w1)
  | None =>
      if Config.dryRun config then (Ok Created, w1)
      else if fails w1 (tick w1)
           then (Throw (ApiError "request failed"), ticked w1)
           else (Ok Created, withNew (createdPage t w1) w1)
  end.
Proof.
  intros E. unfold Orchestrator.syncTrackToNotion, tryCatch, bind. rewrite E.
  destruct r; [reflexivity|]. rewrite createTrack_run.
  destruct (Config.dryRun config); [reflexivity|].
  destruct (fails w1 (tick w1)); reflexivity.
Qed.

(** The earlier orchestrator on one track. *)
Lemma earlier_syncTrackToNotion_run (t : Track) (w w1 : World)
    (r : option Page) :
  findExisting t w = (Ok r, w1) ->
  EarlierOrchestrator.syncTrackToNotion config t w =
  match r with
  | Some p =>
      match NotionClient.updateTrack config (id p) t w1 with
      | (Ok _, w2) => (Ok Updated, w2)
      | (Throw e, w2) => (Throw e, w2)
      end
  | None =>
      if Config.dryRun config then (Ok Created, w1)
      else if fails w1 (tick w1)
           then (Throw (ApiError "request failed"), ticked w1)
           else (Ok Created, withNew (createdPage t w1) w1)
  end.
Proof.
  intros E. unfold EarlierOrchestrator.syncTrackToNotion, tryCatch, bind.
  rewrite E. destruct r as [p|].
  - destruct (NotionClient.updateTrack config (id p) t w1) as [[?|?] ?];
      reflexivity.
  - rewrite createTrack_run.
    destruct (Config.dryRun config); [reflexivity|].
    destruct (fails w1 (tick w1)); reflexivity.
Qed.

End Writes.

(** ** The Playlist Sync Driver *)

Arguments Orchestrator.syncTrackToNotion : simpl never.
Arguments EarlierOrchestrator.syncTrackToNotion : simpl never.

Section Driver.
Variable config : Config.Exports.

Lemma syncTracks_step (pt : string) (t : Track) (rest : list Track)
    (r : Results) (w : World) :
  Orchestrator.syncTracks config pt (t :: rest) r w =
  match Orchestrator.syncTrackToNotion config (withPlaylistInfo t pt) w with
  | (Ok o, w1) =>
      Orchestrator.syncTracks config pt rest (Orchestrator.record t o r) w1
  | (Throw _, w1) =>
      Orchestrator.syncTracks config pt rest (countError r) w1
  end.
Proof.
  cbn [Orchestrator.syncTracks]. unfold bind at 1. unfold tryCatch, bind, ret.
  destruct (Orchestrator.syncTrackToNotion config (withPlaylistInfo t pt) w)
    as [[o|e] w1]; reflexivity.
Qed.

Lemma handled_record (t : Track) (o : Outcome) (r : Results) :
  handled (Orchestrator.record t o r) = S (handled r).
Proof. unfold handled. destruct o; simpl; lia. Qed.

Lemma handled_countError (r : Results) : handled (countError r) = S (handled r).
Proof. unfold handled. simpl. lia. Qed.

Lemma syncTracks_total (pt : string) (ts : list Track) (r : Results)
    (w : World) :
  exists r' w',
    Orchestrator.syncTracks config pt ts r w = (Ok r', w')
    /\ handled r' = (handled r + length ts)%nat
    /\ (errors r <= errors r')%nat.
Proof.
  revert r w. induction ts as [|t ts IH]; intros r w.
  - exists r, w. simpl. split; [reflexivity|]. split; lia.
  - rewrite syncTracks_step.
    destruct (Orchestrator.syncTrackToNotion config (withPlaylistInfo t pt) w)
      as [[o|e] w1].
    + destruct (IH (Orchestrator.record t o r) w1) as (r' & w' & E & H & He).
      exists r', w'. split; [done|]. rewrite H, handled_record. simpl.
      split; [lia|]. destruct o; simpl in He; lia.
    + destruct (IH (countError r) w1) as (r' & w' & E & H & He).
      exists r', w'. split; [done|]. rewrite H, handled_countError. simpl.
      simpl in He. split; lia.
Qed.

Lemma syncTracks_app (pt : string) (pre post : list Track) (r : Results)
    (w : World) (r1 : Results) (w1 : World) :
  Orchestrator.syncTracks config pt pre r w = (Ok r1, w1) ->
  Orchestrator.syncTracks config pt (pre ++ post) r w =
  Orchestrator.syncTracks config pt post r1 w1.
Proof.
  revert r w. induction pre as [|t pre IH]; intros r w E.
  - simpl in E. unfold ret in E. by simplify_eq.
  - rewrite <- app_comm_cons, syncTracks_step. rewrite syncTracks_step in E.
    destruct (Orchestrator.syncTrackToNotion config (withPlaylistInfo t pt) w)
      as [[o|e] w2]; by apply IH.
Qed.

Lemma syncPlaylistOf_healthy (client : MusicClient) (msg pid pt : string)
    (info : PlaylistInfo) (ts : list Track) (w : World) :
  checkServiceHealth client = true ->
  getPlaylist client pid = Ok info ->
  getPlaylistTracks client pid = Ok ts ->
  Orchestrator.syncPlaylistOf config client msg pid pt w =
  Orchestrator.syncTracks config pt ts emptyResults w.
Proof.
  intros H1 H2 H3.
  unfold Orchestrator.syncPlaylistOf, tryCatch, bind, lift.
  rewrite H1, H2, H3. simpl.
  destruct (syncTracks_total pt ts (mkResults 0 0 0 0 []) w) as (r' & w' & E & _).
  unfold emptyResults. by rewrite E.
Qed.

End Driver.

(** C6. A sink write that fails on one track is one error of that track and
    does not stop the playlist.  (1) When the lookup finds nothing and the
    creation request fails, [syncTrackToNotion] throws the error of the sink
    to the driver.  (2) When the sync of a track throws, the driver counts
    one error and goes on with the remaining tracks from the results and the
    sink it had reached.  (3) The loop of the driver returns for every list
    of tracks, and each track is counted once, as created, updated, skipped
    or error.  (4) In a playlist of five tracks whose third track's write
    fails, both drivers report one error, and the four other tracks get the
    outcomes they get when no write fails. *)
Theorem failing_track_is_one_error (config : Config.Exports) :
  (forall t w w1,
     Config.dryRun config = false ->
     findExisting t w = (Ok None, w1) ->
     fails w1 (tick w1) = true ->
     thrown (Orchestrator.syncTrackToNotion config t w)
     = Some (ApiError "request failed"))
  /\ (forall pt pre t post r0 w0 r1 w1 e w2,
        Orchestrator.syncTracks config pt pre r0 w0 = (Ok r1, w1) ->
        Orchestrator.syncTrackToNotion config (withPlaylistInfo t pt) w1
        = (Throw e, w2) ->
        Orchestrator.syncTracks config pt (pre ++ t :: post) r0 w0
        = Orchestrator.syncTracks config pt post (countError r1) w2)
  /\ (forall pt ts r0 w0,
        exists r w,
          Orchestrator.syncTracks config pt ts r0 w0 = (Ok r, w)
          /\ handled r = (handled r0 + length ts)%nat)
  /\ (forall client,
        let failing :=
          returned (client (Sample.clientOf fiveTracks) "sp-1" "Source"
                           failingFifth) in
        let sound :=
          returned (client (Sample.clientOf fiveTracks) "sp-1" "Source"
                           Sample.sink2) in
        client = Orchestrator.syncSpotifyPlaylist (Sample.live false)
        \/ client = Orchestrator.syncAppleMusicPlaylist (Sample.live false) ->
        (counts <$> failing) = Some (2, 0, 2, 1)%nat
        /\ (tracks <$> failing)
           = Some [("Waterloo", Skipped); ("Heroes", Skipped);
                   ("Jolene", Created); ("Azul", Created)]
        /\ (tracks <$> sound)
           = Some [("Waterloo", Skipped); ("Heroes", Skipped);
                   ("Hurt", Created); ("Jolene", Created);
                   ("Azul", Created)]).
Proof.
  split; [|split; [|split]].
  - intros t w w1 D E F. unfold thrown.
    rewrite (syncTrackToNotion_run config t w w1 None E), D, F. reflexivity.
  - intros pt pre t post r0 w0 r1 w1 e w2 E1 E2.
    rewrite (syncTracks_app config pt pre (t :: post) r0 w0 r1 w1 E1).
    rewrite syncTracks_step, E2. reflexivity.
  - intros pt ts r0 w0.
    destruct (syncTracks_total config pt ts r0 w0) as (r & w & E & H & _).
    eauto.
  - intros client failing sound [-> | ->]; vm_compute; auto.
Qed.

(** ** Dry run *)

Section KeepsSink.

Lemma keeps_ret {A} (a : A) : keepsSink (ret a).
Proof. intros w. apply sameSink_refl. Qed.

Lemma keeps_throw {A} (e : Error) : keepsSink (@throw A e).
Proof. intros w. apply sameSink_refl. Qed.

Lemma keeps_lift {A} (r : Result A) : keepsSink (lift r).
Proof. intros w. apply sameSink_refl. Qed.

Lemma keeps_bind {A B} (m : M A) (k : A -> M B) :
  keepsSink m -> (forall a, keepsSink (k a)) -> keepsSink (bind m k).
Proof.
  intros Hm Hk w. unfold bind. specialize (Hm w).
  destruct (m w) as [[a|e] w1]; simpl in *; [|done].
  eapply sameSink_trans; [exact Hm|apply Hk].
Qed.

Lemma keeps_tryCatch {A} (m : M A) (h : Error -> M A) :
  keepsSink m -> (forall e, keepsSink (h e)) -> keepsSink (tryCatch m h).
Proof.
  intros Hm Hh w. unfold tryCatch. specialize (Hm w).
  destruct (m w) as [[a|e] w1]; simpl in *; [done|].
  eapply sameSink_trans; [exact Hm|apply Hh].
Qed.

Lemma keeps_queryDatabase (f : Filter) : keepsSink (NotionClient.queryDatabase f).
Proof.
  intros w. rewrite queryDatabase_run.
  destruct (fails w (tick w)); apply sameSink_ticked.
Qed.

Lemma keeps_findExisting (t : Track) : keepsSink (findExisting t).
Proof.
  intros w. destruct (findExisting_total t w) as (r & w' & E & HS & _).
  by rewrite E.
Qed.

End KeepsSink.

Section DryRun.
Variable config : Config.Exports.
Hypothesis dry : Config.dryRun config = true.

Lemma keeps_createTrack (t : Track) :
  keepsSink (NotionClient.createTrack config t).
Proof. intros w. rewrite createTrack_run, dry. apply sameSink_refl. Qed.

Lemma keeps_updateTrack (pageId : string) (t : Track) :
  keepsSink (NotionClient.updateTrack config pageId t).
Proof. intros w. rewrite updateTrack_run, dry. apply sameSink_refl. Qed.

Lemma keeps_markTrackRemoved (pageId : string) :
  keepsSink (NotionClient.markTrackRemoved config pageId).
Proof. intros w. rewrite markTrackRemoved_run, dry. apply sameSink_refl. Qed.

Lemma keeps_syncTrackToNotion (t : Track) :
  keepsSink (Orchestrator.syncTrackToNotion config t).
Proof.
  apply keeps_tryCatch; [|intros; apply keeps_throw].
  apply keeps_bind; [apply keeps_findExisting|].
  intros [p|]; [apply keeps_ret|].
  apply keeps_bind; [apply keeps_createTrack|intros; apply keeps_ret].
Qed.

Lemma keeps_earlier_syncTrackToNotion (t : Track) :
  keepsSink (EarlierOrchestrator.syncTrackToNotion config t).
Proof.
  apply keeps_tryCatch; [|intros; apply keeps_throw].
  apply keeps_bind; [apply keeps_findExisting|].
  intros [p|].
  - apply keeps_bind; [apply keeps_updateTrack|intros; apply keeps_ret].
  - apply keeps_bind; [apply keeps_createTrack|intros; apply keeps_ret].
Qed.

Lemma keeps_syncTracks (pt : string) (ts : list Track) (r : Results) :
  keepsSink (Orchestrator.syncTracks config pt ts r).
Proof.
  revert r. induction ts as [|t ts IH]; intros r; [apply keeps_ret|].
  cbn [Orchestrator.syncTracks]. apply keeps_bind; [|intros; apply IH].
  apply keeps_tryCatch; [|intros; apply keeps_ret].
  apply keeps_bind; [apply keeps_syncTrackToNotion|intros; apply keeps_ret].
Qed.

Lemma keeps_earlier_syncTracks (ts : list Track) (r : Results) :
  keepsSink (EarlierOrchestrator.syncTracks config ts r).
Proof.
  revert r. induction ts as [|t ts IH]; intros r; [apply keeps_ret|].
  cbn [EarlierOrchestrator.syncTracks]. apply keeps_bind; [|intros; apply IH].
  apply keeps_tryCatch; [|intros; apply keeps_ret].
  apply keeps_bind; [apply keeps_earlier_syncTrackToNotion|].
  intros; apply keeps_ret.
Qed.

Lemma keeps_syncPlaylistOf (client : MusicClient) (msg pid pt : string) :
  keepsSink (Orchestrator.syncPlaylistOf config client msg pid pt).
Proof.
  apply keeps_tryCatch; [|intros; apply keeps_throw]. cbv zeta.
  destruct (negb (checkServiceHealth client)); [apply keeps_throw|].
  apply keeps_bind; [apply keeps_lift|intros].
  apply keeps_bind; [apply keeps_lift|intros]. apply keeps_syncTracks.
Qed.

Lemma keeps_earlier_syncPlaylistOf (client : MusicClient) (msg pid : string) :
  keepsSink (EarlierOrchestrator.syncPlaylistOf config client msg pid).
Proof.
  apply keeps_tryCatch; [|intros; apply keeps_throw]. cbv zeta.
  destruct (negb (checkServiceHealth client)); [apply keeps_throw|].
  apply keeps_bind; [apply keeps_lift|intros].
  apply keeps_bind; [apply keeps_lift|intros]. apply keeps_earlier_syncTracks.
Qed.

Lemma keeps_syncPlaylists (sp am : MusicClient)
    (ps : list Config.Configured) (s : Summary) :
  keepsSink (Orchestrator.syncPlaylists config sp am ps s).
Proof.
  revert s. induction ps as [|p ps IH]; intros s; [apply keeps_ret|].
  cbn [Orchestrator.syncPlaylists]. apply keeps_bind; [|intros; apply IH].
  apply keeps_tryCatch; [|intros; apply keeps_ret].
  apply keeps_bind; [|intros; apply keeps_ret].
  destruct (Config.service p); apply keeps_syncPlaylistOf.
Qed.

Lemma keeps_checkTracks (ids : gset string) (ps : list Page)
    (r : CleanupResults) :
  keepsSink (Orchestrator.checkTracks config ids ps r).
Proof.
  revert r. induction ps as [|p ps IH]; intros r; [apply keeps_ret|].
  cbn [Orchestrator.checkTracks]. apply keeps_bind; [|intros; apply IH].
  apply keeps_tryCatch; [|intros; apply keeps_ret].
  destruct (Orchestrator.manuallyAdded p); [apply keeps_ret|].
  destruct (negb _); [|apply keeps_ret].
  apply keeps_bind; [apply keeps_markTrackRemoved|intros; apply keeps_ret].
Qed.

Lemma keeps_cleanupRemovedTracks (sp am : MusicClient) :
  keepsSink (Orchestrator.cleanupRemovedTracks config sp am).
Proof.
  apply keeps_tryCatch; [|intros; apply keeps_throw].
  apply keeps_bind; [apply keeps_queryDatabase|intros]. cbv zeta.
  apply keeps_bind; [apply keeps_lift|intros]. apply keeps_checkTracks.
Qed.

Lemma keeps_fullSync (sp am : MusicClient) :
  keepsSink (Orchestrator.fullSync config sp am).
Proof.
  apply keeps_tryCatch; [|intros; apply keeps_throw].
  apply keeps_bind.
  { apply keeps_tryCatch; [apply keeps_syncPlaylists|intros; apply keeps_throw]. }
  intros. apply keeps_bind; [apply keeps_cleanupRemovedTracks|].
  intros; apply keeps_ret.
Qed.

(** A dry run over an empty sink reports every track as created. *)
Lemma syncTracks_dry_empty (pt : string) (ts : list Track) (r : Results)
    (w : World) :
  pages w = [] ->
  exists r' w',
    Orchestrator.syncTracks config pt ts r w = (Ok r', w')
    /\ added r' = (added r + length ts)%nat /\ updated r' = updated r
    /\ skipped r' = skipped r /\ errors r' = errors r /\ pages w' = [].
Proof.
  revert r w. induction ts as [|t ts IH]; intros r w Hw.
  - exists r, w. simpl. repeat split; auto with lia.
  - rewrite syncTracks_step.
    destruct (findExisting_total (withPlaylistInfo t pt) w)
      as (x & w1 & E & HS & _ & Hx).
    assert (x = None) as ->.
    { destruct x; [|done]. destruct Hx as [? Hx]; [done|].
      rewrite Hw in Hx. unfold resolveGuarded, resolveByIsrc in Hx.
      simpl in Hx. repeat case_match; simplify_eq. }
    rewrite (syncTrackToNotion_run config _ w w1 None E), dry.
    destruct HS as (Hp & _).
    destruct (IH (Orchestrator.record t Created r) w1) as (r' & w' & E' & H).
    { by rewrite Hp. }
    exists r', w'. split; [done|]. clear Hx.
    unfold Orchestrator.record in H. simpl in H.
    destruct H as (?&?&?&?&?). simpl. repeat split; auto with lia.
Qed.

End DryRun.

(** C7. With the dry-run flag set no operation changes the sink, and the
    decision and its label are the ones of a real run.  (1-3) [createTrack],
    [updateTrack] and [markTrackRemoved] return without a request to the
    sink.  (4) The sync of a track returns [created] when the lookup finds
    nothing and [skipped] ([updated] in the earlier revision) when it finds a
    page, in the world the lookup left.  (5) Whenever a real run on the same
    track and the same sink returns a label, the dry run returns that label.
    (6-9) The full sync, the cleanup and the playlist drivers of both
    revisions leave the pages of the sink as they are, whether they return or
    throw.  (10) Over an empty sink every track of a playlist is counted as
    created, and the sink is still empty afterwards. *)
Theorem dry_run_mutates_nothing (config : Config.Exports) :
  Config.dryRun config = true ->
  (forall t w,
     NotionClient.createTrack config t w =
     (Ok (mkPage "dry-run-id" (NotionClient.buildTrackProperties t false)), w))
  /\ (forall pageId t w,
        NotionClient.updateTrack config pageId t w =
        (Ok (mkPage pageId (NotionClient.buildTrackProperties t true)), w))
  /\ (forall pageId w,
        NotionClient.markTrackRemoved config pageId w = (Ok (mkPage pageId ∅), w))
  /\ (forall t w r w1,
        findExisting t w = (Ok r, w1) ->
        Orchestrator.syncTrackToNotion config t w =
        (Ok match r with Some _ => Skipped | None => Created end, w1)
        /\ EarlierOrchestrator.syncTrackToNotion config t w =
           (Ok match r with Some _ => Updated | None => Created end, w1))
  /\ (forall live t w o w',
        Config.dryRun live = false ->
        (Orchestrator.syncTrackToNotion live t w = (Ok o, w') ->
         returned (Orchestrator.syncTrackToNotion config t w) = Some o)
        /\ (EarlierOrchestrator.syncTrackToNotion live t w = (Ok o, w') ->
            returned (EarlierOrchestrator.syncTrackToNotion config t w)
            = Some o))
  /\ (forall sp am w,
        sameSink w (snd (Orchestrator.fullSync config sp am w)))
  /\ (forall sp am w,
        sameSink w (snd (Orchestrator.cleanupRemovedTracks config sp am w)))
  /\ (forall client pid pt w,
        sameSink w (snd (Orchestrator.syncSpotifyPlaylist config client pid pt w))
        /\ sameSink w
             (snd (Orchestrator.syncAppleMusicPlaylist config client pid pt w)))
  /\ (forall client pid w,
        sameSink w
          (snd (EarlierOrchestrator.syncSpotifyPlaylist config client pid w))
        /\ sameSink w
             (snd (EarlierOrchestrator.syncAppleMusicPlaylist config client pid w)))
  /\ (forall pt ts w,
        pages w = [] ->
        exists r w',
          Orchestrator.syncTracks config pt ts emptyResults w = (Ok r, w')
          /\ counts r = (length ts, 0, 0, 0)%nat /\ pages w' = []).
Proof.
  intros dry.
  assert (Hdec : forall t w r w1,
            findExisting t w = (Ok r, w1) ->
            Orchestrator.syncTrackToNotion config t w =
            (Ok match r with Some _ => Skipped | None => Created end, w1)
            /\ EarlierOrchestrator.syncTrackToNotion config t w =
               (Ok match r with Some _ => Updated | None => Created end, w1)).
  { intros t w r w1 E.
    rewrite (syncTrackToNotion_run config t w w1 r E).
    rewrite (earlier_syncTrackToNotion_run config t w w1 r E).
    rewrite dry. destruct r as [p|]; [|done].
    by rewrite updateTrack_run, dry. }
  repeat apply conj.
  - intros. by rewrite createTrack_run, dry.
  - intros. by rewrite updateTrack_run, dry.
  - intros. by rewrite markTrackRemoved_run, dry.
  - exact Hdec.
  - intros live t w o w' Hl.
    destruct (findExisting_total t w) as (r & w1 & E & _).
    destruct (Hdec t w r w1 E) as [E1 E2]. unfold returned.
    rewrite E1, E2. simpl. split; intros H.
    + rewrite (syncTrackToNotion_run live t w w1 r E), Hl in H.
      destruct r; [by simplify_eq|].
      destruct (fails w1 (tick w1)); by simplify_eq.
    + rewrite (earlier_syncTrackToNotion_run live t w w1 r E), Hl in H.
      destruct r as [p|].
      * destruct (NotionClient.updateTrack live (id p) t w1) as [[?|?] ?];
          by simplify_eq.
      * destruct (fails w1 (tick w1)); by simplify_eq.
  - intros. by apply keeps_fullSync.
  - intros. by apply keeps_cleanupRemovedTracks.
  - intros. split; by apply keeps_syncPlaylistOf.
  - intros. split; by apply keeps_earlier_syncPlaylistOf.
  - intros pt ts w Hw.
    destruct (syncTracks_dry_empty config dry pt ts emptyResults w Hw)
      as (r & w' & E & H1 & H2 & H3 & H4 & H5).
    exists r, w'. split; [done|]. split; [|done].
    unfold counts. simpl in *. congruence.
Qed.

Lemma dry_run_mutates_nothing_witness :
  sameSink Sample.sink2
    (snd (Orchestrator.fullSync (Sample.live true)
            (Sample.clientOf fiveTracks) Sample.down Sample.sink2))
  /\ returned (Orchestrator.syncTrackToNotion (Sample.live true) Sample.hurt
                 Sample.sink2) = Some Created.
Proof.
  destruct (dry_run_mutates_nothing (Sample.live true) eq_refl)
    as (_ & _ & _ & _ & _ & H & _).
  split; [apply H|]. vm_compute. reflexivity.
Defined.

(** ** The Upsert Policy *)

Section Upsert.

Lemma findExisting_unfold (t : Track) (w : World) :
  findExisting t w =
  match (if Js.truthyO (isrc t)
         then NotionClient.findTrackByIsrc (isrc t) w
         else (Ok None, w)) with
  | (Ok (Some p), w1) => (Ok (Some p), w1)
  | (Ok None, w1) =>
      NotionClient.findTrackByTitleArtist (title t) (artist t) w1
  | (Throw e, w1) => (Throw e, w1)
  end.
Proof.
  unfold findExisting, bind.
  destruct (Js.truthyO (isrc t)); [|reflexivity].
  destruct (NotionClient.findTrackByIsrc (isrc t) w) as [[[p|]|e] w1];
    reflexivity.
Qed.

Lemma findTrackByIsrc_elem (i : option string) (w w' : World) (p : Page) :
  NotionClient.findTrackByIsrc i w = (Ok (Some p), w') -> p ∈ pages w.
Proof.
  destruct i as [s|]; [destruct (Js.truthy s) eqn:E|].
  - rewrite findTrackByIsrc_run by done.
    destruct (fails w (tick w)); [done|].
    intros [= H _]. by apply find_some_elem in H.
  - unfold NotionClient.findTrackByIsrc. by rewrite E.
  - done.
Qed.

Lemma findTrackByTitleArtist_elem (t : string) (a : option string)
    (w w' : World) (p : Page) :
  NotionClient.findTrackByTitleArtist t a w = (Ok (Some p), w') ->
  p ∈ pages w.
Proof.
  destruct a as [a|];
    [destruct (Js.truthy t) eqn:Et; [destruct (Js.truthy a) eqn:Ea|]|].
  - rewrite findTrackByTitleArtist_run by done.
    destruct (fails w (tick w)); [done|].
    intros [= H _]. by apply find_some_elem in H.
  - unfold NotionClient.findTrackByTitleArtist. by rewrite Et, Ea.
  - unfold NotionClient.findTrackByTitleArtist. by rewrite Et.
  - done.
Qed.

(** A page the lookup returns is a page of the sink. *)
Lemma findExisting_elem (t : Track) (w w' : World) (p : Page) :
  findExisting t w = (Ok (Some p), w') -> p ∈ pages w.
Proof.
  rewrite findExisting_unfold.
  destruct (Js.truthyO (isrc t)).
  - destruct (findTrackByIsrc_total (isrc t) w) as (r & w1 & E & HS & _).
    rewrite E. destruct r as [q|].
    + intros [= -> _]. by eapply findTrackByIsrc_elem.
    + intros H. apply findTrackByTitleArtist_elem in H.
      destruct HS as (Hp & _). by rewrite Hp in H.
  - apply findTrackByTitleArtist_elem.
Qed.

Lemma find_by_id (p : Page) (l : list Page) :
  p ∈ l -> is_Some (List.find (fun q => bool_decide (id q = id p)) l).
Proof.
  induction 1 as [p l|p q l _ IH]; simpl.
  - rewrite bool_decide_eq_true_2 by done. eauto.
  - destruct (bool_decide (id q = id p)); eauto.
Qed.

Lemma setWhen_lookup_ne (c : bool) (k name : string) (v : PropValue)
    (m : gmap string PropValue) :
  k <> name -> NotionClient.setWhen c k v m !! name = m !! name.
Proof.
  intros H. unfold NotionClient.setWhen. destruct c; [|done].
  by rewrite lookup_insert_ne.
Qed.

(** [buildTrackProperties] writes none but the written fields. *)
Lemma buildTrackProperties_dom (t : Track) (b : bool) (name : string) :
  name ∉ writtenFields ->
  NotionClient.buildTrackProperties t b !! name = None.
Proof.
  unfold writtenFields. intros H.
  repeat (apply not_elem_of_cons in H; destruct H as [? H]).
  unfold NotionClient.buildTrackProperties.
  rewrite lookup_insert_ne by done.
  rewrite !setWhen_lookup_ne by done. apply lookup_empty.
Qed.

Lemma buildTrackProperties_removed (t : Track) (b : bool) :
  NotionClient.buildTrackProperties t b !! Schema.REMOVED
  = Some (PCheckbox false).
Proof. unfold NotionClient.buildTrackProperties. apply lookup_insert_eq. Qed.

Lemma buildTrackProperties_composer (t : Track) (b : bool) :
  Js.truthyO (composer t) = false ->
  NotionClient.buildTrackProperties t b !! Schema.COMPOSER = None.
Proof.
  intros H. unfold NotionClient.buildTrackProperties.
  rewrite lookup_insert_ne by done. rewrite H.
  unfold NotionClient.setWhen at 1.
  rewrite !setWhen_lookup_ne by done. apply lookup_empty.
Qed.

Lemma patch_lookup (props : gmap string PropValue) (q : Page) (name : string) :
  properties (patch props q) !! name =
  match props !! name with
  | Some v => Some v
  | None => properties q !! name
  end.
Proof.
  unfold patch. simpl. rewrite lookup_union.
  destruct (props !! name), (properties q !! name); reflexivity.
Qed.

End Upsert.

(** C1, as amended.  The upsert mode is the revision of the orchestrator
    that is deployed; the configuration has no mode.  (1) The current
    orchestrator preserves: for an existing page it returns [skipped] in the
    world the lookup left, whose pages are those before, and it never
    returns [updated].  (2) The earlier orchestrator updates: with the dry
    run off and a write that succeeds, for an existing page it returns
    [updated] and the sink holds the page patched with the properties of the
    track.  (3) The patch changes no other page, keeps the identifier, sets
    [Removed] to false and leaves every property outside the written fields
    as it was; the annotation fields are outside the written fields; every
    written field but [Composer] is an automated field of the schema, and
    [Composer] is written only for a track that has a composer.  (4) For a
    playlist of three tracks, two of which are in the sink by their ISRC, the
    current orchestrator reports one created and two skipped, the earlier
    one reports one created and two updated and leaves the notes of the two
    pages in place. *)
Theorem upsert_by_revision (config : Config.Exports) :
  (forall t w p w1,
     findExisting t w = (Ok (Some p), w1) ->
     Orchestrator.syncTrackToNotion config t w = (Ok Skipped, w1)
     /\ pages w1 = pages w)
  /\ (forall t w o w',
        Orchestrator.syncTrackToNotion config t w = (Ok o, w') ->
        o = Created \/ o = Skipped)
  /\ (forall t w p w1,
        Config.dryRun config = false ->
        findExisting t w = (Ok (Some p), w1) ->
        fails w1 (tick w1) = false ->
        EarlierOrchestrator.syncTrackToNotion config t w =
        (Ok Updated,
         withPatch (id p) (NotionClient.buildTrackProperties t true) w1)
        /\ pages w1 = pages w
        /\ patch (NotionClient.buildTrackProperties t true) p
           ∈ pages (withPatch (id p)
                      (NotionClient.buildTrackProperties t true) w1))
  /\ (forall t pageId q,
        let q' := patchPage pageId (NotionClient.buildTrackProperties t true) q in
        id q' = id q
        /\ (id q <> pageId -> q' = q)
        /\ (id q = pageId ->
            checkbox q' Schema.REMOVED = false
            /\ forall name,
                 name ∉ writtenFields ->
                 properties q' !! name = properties q !! name))
  /\ (forall name, name ∈ Schema.annotationFields -> name ∉ writtenFields)
  /\ (forall name,
        name ∈ writtenFields ->
        name = Schema.COMPOSER \/ (name, true) ∈ Schema.DATABASE_SCHEMA)
  /\ (forall t b,
        Js.truthyO (composer t) = false ->
        NotionClient.buildTrackProperties t b !! Schema.COMPOSER = None)
  /\ (counts <$> returned
        (Orchestrator.syncSpotifyPlaylist (Sample.live false)
           (Sample.clientOf threeTracks) "sp-1" "Source" Sample.sink2))
     = Some (1, 0, 2, 0)%nat
  /\ (let run :=
        EarlierOrchestrator.syncSpotifyPlaylist (Sample.live false)
          (Sample.clientOf threeTracks) "sp-1" Sample.sink2 in
      (counts <$> returned run) = Some (1, 2, 0, 0)%nat
      /\ pages (snd run)
         = [ mkPage "page-0"
               (NotionClient.buildTrackProperties Sample.hurt false);
             patch (NotionClient.buildTrackProperties Sample.heroes true)
                   Sample.p2;
             patch (NotionClient.buildTrackProperties Sample.waterloo true)
                   Sample.p1 ]
      /\ (fun q => properties q !! Schema.NOTES) <$> pages (snd run)
         = [ None; Some (PRichText (Some "opening scene"));
             Some (PRichText (Some "opening scene")) ]).
Proof.
  repeat apply conj.
  - intros t w p w1 E.
    rewrite (syncTrackToNotion_run config t w w1 _ E). split; [done|].
    pose proof (keeps_findExisting t w) as HS. rewrite E in HS. apply HS.
  - intros t w o w' H.
    destruct (findExisting_total t w) as (r & w1 & E & _).
    rewrite (syncTrackToNotion_run config t w w1 r E) in H.
    destruct r; [right; by simplify_eq|].
    destruct (Config.dryRun config); [left; by simplify_eq|].
    destruct (fails w1 (tick w1)); [done|left; by simplify_eq].
  - intros t w p w1 D E F.
    pose proof (keeps_findExisting t w) as HS. rewrite E in HS.
    destruct HS as (Hp & _). simpl in Hp.
    pose proof (findExisting_elem t w w1 p E) as Hin. rewrite <- Hp in Hin.
    rewrite (earlier_syncTrackToNotion_run config t w w1 _ E).
    rewrite updateTrack_run, D, F.
    destruct (find_by_id p (pages w1) Hin) as [q ->].
    split; [done|]. split; [done|]. simpl.
    apply list_elem_of_fmap. exists p. split; [|done].
    unfold patchPage. by rewrite decide_True.
  - intros t pageId q q'. subst q'. unfold patchPage.
    destruct (decide (id q = pageId)) as [Hq|Hq]; repeat split; try done.
    + unfold checkbox. rewrite patch_lookup.
      by rewrite buildTrackProperties_removed.
    + intros name Hn. rewrite patch_lookup.
      by rewrite buildTrackProperties_dom.
  - intros name H. vm_compute in H.
    repeat (apply elem_of_cons in H; destruct H as [-> | H]);
      [..|by apply elem_of_nil in H];
      apply (bool_decide_unpack _); vm_compute; exact I.
  - intros name H. unfold writtenFields in H.
    repeat (apply elem_of_cons in H; destruct H as [-> | H]);
      [..|by apply elem_of_nil in H];
      first [ by left
            | right; apply (bool_decide_unpack _); vm_compute; exact I ].
  - intros t b. apply buildTrackProperties_composer.
  - vm_compute. reflexivity.
  - vm_compute. reflexivity.
  - vm_compute. reflexivity.
  - vm_compute. reflexivity.
Qed.

Lemma upsert_by_revision_witness :
  EarlierOrchestrator.syncTrackToNotion (Sample.live false) Sample.waterloo
    Sample.sink2
  = (Ok Updated,
     withPatch "p1" (NotionClient.buildTrackProperties Sample.waterloo true)
       (ticked Sample.sink2)).
Proof.
  destruct (upsert_by_revision (Sample.live false)) as (_ & _ & H & _).
  destruct (H Sample.waterloo Sample.sink2 Sample.p1 (ticked Sample.sink2)
              eq_refl eq_refl eq_refl) as (E & _).
  exact E.
Defined.

(** C1, as stated, fails: the orchestrator has no Update mode.  Whatever the
    configuration, for three tracks of which two are in the sink by their
    ISRC the driver reports one created, none updated and two skipped. *)
Lemma no_update_mode :
  (counts <$> returned
     (Orchestrator.syncSpotifyPlaylist (Sample.live false)
        (Sample.clientOf threeTracks) "sp-1" "Source" Sample.sink2))
  = Some (1, 0, 2, 0)%nat
  /\ (counts <$> returned
        (Orchestrator.syncSpotifyPlaylist (Sample.live true)
           (Sample.clientOf threeTracks) "sp-1" "Source" Sample.sink2))
     = Some (1, 0, 2, 0)%nat.
Proof. vm_compute. auto. Qed.

(** ** Idempotence of the driver *)

Section Idempotence.
Variable config : Config.Exports.

Lemma extends_refl (w : World) : extends w w.
Proof. split; [by exists []|]. auto. Qed.

Lemma extends_trans (w1 w2 w3 : World) :
  extends w1 w2 -> extends w2 w3 -> extends w1 w3.
Proof.
  intros ([n1 H1] & F1 & T1) ([n2 H2] & F2 & T2).
  split; [exists (n2 ++ n1); by rewrite H2, H1, app_assoc|].
  split; [congruence|lia].
Qed.

Lemma sameSink_extends (w w' : World) : sameSink w w' -> extends w w'.
Proof. intros (Hp & _ & Hf & Ht). split; [by exists []|]. auto. Qed.

Lemma resolveGuarded_mono (t : Track) (newer ps : list Page) :
  is_Some (resolveGuarded t ps) -> is_Some (resolveGuarded t (newer ++ ps)).
Proof.
  unfold resolveGuarded, resolveByIsrc.
  set (ta l := match artist t with
               | Some a =>
                   if Js.truthy (title t) && Js.truthy a
                   then List.find (titleArtistMatch (title t) a) l
                   else None
               | None => None
               end).
  assert (Hta : is_Some (ta ps) -> is_Some (ta (newer ++ ps))).
  { unfold ta. destruct (artist t); [|done].
    destruct (_ && _); [|done]. apply find_app_some. }
  change (is_Some match match isrc t with
                        | Some i =>
                            if Js.truthy i then List.find (isrcMatch i) ps
                            else None
                        | None => None
                        end with
                  | Some p => Some p
                  | None => ta ps
                  end ->
          is_Some match match isrc t with
                        | Some i =>
                            if Js.truthy i
                            then List.find (isrcMatch i) (newer ++ ps)
                            else None
                        | None => None
                        end with
                  | Some p => Some p
                  | None => ta (newer ++ ps)
                  end).
  destruct (isrc t) as [i|]; [destruct (Js.truthy i)|]; try exact Hta.
  destruct (List.find (isrcMatch i) ps) as [p|] eqn:E.
  - intros _.
    destruct (find_app_some (isrcMatch i) newer ps) as [q ->]; [by rewrite E|].
    eauto.
  - intros H. destruct (List.find (isrcMatch i) (newer ++ ps)); [eauto|auto].
Qed.

Lemma setWhen_lookup_eq (k : string) (v : PropValue)
    (m : gmap string PropValue) :
  NotionClient.setWhen true k v m !! k = Some v.
Proof. unfold NotionClient.setWhen. apply lookup_insert_eq. Qed.

Lemma build_isrc (t : Track) (b : bool) (i : string) :
  isrc t = Some i -> Js.truthy i = true ->
  NotionClient.buildTrackProperties t b !! Schema.ISRC_UPC
  = Some (PRichText (Some i)).
Proof.
  intros E T. unfold NotionClient.buildTrackProperties.
  rewrite lookup_insert_ne by done. rewrite !setWhen_lookup_ne by done.
  rewrite E. simpl. rewrite T. apply setWhen_lookup_eq.
Qed.

Lemma build_title (t : Track) (b : bool) :
  Js.truthy (title t) = true ->
  NotionClient.buildTrackProperties t b !! Schema.TRACK_TITLE
  = Some (PTitle (Some (title t))).
Proof.
  intros T. unfold NotionClient.buildTrackProperties.
  rewrite lookup_insert_ne by done. rewrite !setWhen_lookup_ne by done.
  unfold Schema.formatTitle. rewrite T. apply setWhen_lookup_eq.
Qed.

Lemma build_artist (t : Track) (b : bool) (a : string) :
  artist t = Some a -> Js.truthy a = true ->
  NotionClient.buildTrackProperties t b !! Schema.ARTIST
  = Some (PRichText (Some a)).
Proof.
  intros E T. unfold NotionClient.buildTrackProperties.
  rewrite lookup_insert_ne by done. rewrite !setWhen_lookup_ne by done.
  rewrite E. simpl. rewrite T. apply setWhen_lookup_eq.
Qed.

(** The page created for an identifiable track is one the resolver finds. *)
Lemma created_is_found (t : Track) (w : World) (ps : list Page) :
  identifiable t = true ->
  is_Some (resolveGuarded t (createdPage t w :: ps)).
Proof.
  unfold identifiable, resolveGuarded, resolveByIsrc. intros H.
  destruct (isrc t) as [i|] eqn:Ei; [destruct (Js.truthy i) eqn:Ti|].
  - assert (isrcMatch i (createdPage t w) = true) as Hm.
    { unfold isrcMatch, storedIsrc, richTextContent, createdPage. simpl.
      rewrite (build_isrc t false i Ei Ti). simpl. apply includes_refl. }
    simpl. rewrite Hm. eauto.
  - simpl in H. rewrite Ti in H. simpl in H.
    apply andb_true_iff in H as [Ht Ha].
    destruct (artist t) as [a|] eqn:Ea; [|done]. simpl in Ha.
    rewrite Ht, Ha. simpl.
    assert (titleArtistMatch (title t) a (createdPage t w) = true) as ->;
      [|eauto].
    unfold titleArtistMatch, storedTitle, storedArtist, titleContent,
      richTextContent, createdPage. simpl.
    rewrite (build_title t false Ht), (build_artist t false a Ea Ha). simpl.
    by rewrite !includes_refl.
  - simpl in H. apply andb_true_iff in H as [Ht Ha].
    destruct (artist t) as [a|] eqn:Ea; [|done]. simpl in Ha.
    rewrite Ht, Ha. simpl.
    assert (titleArtistMatch (title t) a (createdPage t w) = true) as ->;
      [|eauto].
    unfold titleArtistMatch, storedTitle, storedArtist, titleContent,
      richTextContent, createdPage. simpl.
    rewrite (build_title t false Ht), (build_artist t false a Ea Ha). simpl.
    by rewrite !includes_refl.
Qed.

End Idempotence.

Section TwoRuns.
Variable config : Config.Exports.
Hypothesis live : Config.dryRun config = false.

(** One track of a real run: the sink only grows, and an identifiable track
    that was created or skipped is found from then on. *)
Lemma syncTrackToNotion_leaves_found (t : Track) (w : World) :
  match Orchestrator.syncTrackToNotion config t w with
  | (Ok _, w') =>
      extends w w'
      /\ (identifiable t = true -> is_Some (resolveGuarded t (pages w')))
  | (Throw _, w') => extends w w'
  end.
Proof.
  destruct (findExisting_total t w) as (r & w1 & E & HS & _ & Hr).
  rewrite (syncTrackToNotion_run config t w w1 r E), live.
  pose proof HS as (Hp & _ & Hf & Ht).
  destruct r as [p|].
  - split; [by apply sameSink_extends|]. intros _. rewrite Hp. by apply Hr.
  - destruct (fails w1 (tick w1)).
    + eapply extends_trans; [by apply sameSink_extends|].
      apply sameSink_extends, sameSink_ticked.
    + split.
      * eapply extends_trans; [by apply sameSink_extends|].
        split; [by exists [createdPage t w1]|]. simpl. auto with lia.
      * intros Hi. simpl. by apply created_is_found.
Qed.

(** The first run: if it counts no new error, every identifiable track of
    the playlist is found in the sink it leaves. *)
Lemma syncTracks_leaves_found (pt : string) (ts : list Track) (r r' : Results)
    (w w' : World) :
  Orchestrator.syncTracks config pt ts r w = (Ok r', w') ->
  extends w w'
  /\ (errors r' = errors r ->
      forall t, t ∈ ts -> identifiable t = true ->
                is_Some (resolveGuarded (withPlaylistInfo t pt) (pages w'))).
Proof.
  revert r w. induction ts as [|t ts IH]; intros r w E.
  - simpl in E. unfold ret in E. simplify_eq.
    split; [apply extends_refl|]. intros _ t Ht. by apply elem_of_nil in Ht.
  - rewrite syncTracks_step in E.
    pose proof (syncTrackToNotion_leaves_found (withPlaylistInfo t pt) w) as H.
    destruct (Orchestrator.syncTrackToNotion config (withPlaylistInfo t pt) w)
      as [[o|e] w1].
    + destruct H as [H1 Hf]. destruct (IH _ _ E) as [H2 Hrest].
      split; [by eapply extends_trans|].
      intros He x Hx Hi.
      assert (errors (Orchestrator.record t o r) = errors r) as Hrec
          by by destruct o.
      apply elem_of_cons in Hx as [-> | Hx].
      * destruct H2 as ([newer ->] & _). apply resolveGuarded_mono.
        by apply Hf.
      * apply Hrest; [congruence|done..].
    + destruct (IH _ _ E) as [H2 _].
      split; [by eapply extends_trans|]. intros He. exfalso.
      destruct (syncTracks_total config pt ts (countError r) w1)
        as (r2 & w2 & E2 & _ & Hle).
      rewrite E in E2. simplify_eq. simpl in Hle. lia.
Qed.

(** A run over tracks that are all found, with no failing query: every track
    is skipped and the sink is left as it is. *)
Lemma syncTracks_all_found (pt : string) (ts : list Track) (r : Results)
    (w : World) :
  (forall n, (tick w <= n)%nat -> fails w n = false) ->
  (forall t, t ∈ ts ->
             is_Some (resolveGuarded (withPlaylistInfo t pt) (pages w))) ->
  exists r' w',
    Orchestrator.syncTracks config pt ts r w = (Ok r', w')
    /\ sameSink w w'
    /\ added r' = added r /\ updated r' = updated r
    /\ skipped r' = (skipped r + length ts)%nat /\ errors r' = errors r.
Proof.
  revert r w. induction ts as [|t ts IH]; intros r w F Hall.
  - exists r, w. simpl. repeat split; auto using sameSink_refl with lia.
  - rewrite syncTracks_step.
    destruct (findExisting_guarded (withPlaylistInfo t pt) w) as (w1 & E & HS);
      [apply F; lia..|].
    destruct (Hall t) as [p Hp]; [set_solver|].
    rewrite Hp in E.
    rewrite (syncTrackToNotion_run config _ w w1 _ E).
    pose proof HS as (Hpg & _ & Hf & Ht).
    destruct (IH (Orchestrator.record t Skipped r) w1) as
      (r' & w' & E' & HS' & H1 & H2 & H3 & H4).
    { intros n Hn. rewrite Hf. apply F. lia. }
    { intros x Hx. rewrite Hpg. apply Hall. set_solver. }
    exists r', w'. split; [done|].
    split; [by eapply sameSink_trans|]. simpl in *. repeat split; lia.
Qed.

Lemma syncPlaylistOf_returns (client : MusicClient) (msg pid pt : string)
    (r : Results) (w w' : World) :
  Orchestrator.syncPlaylistOf config client msg pid pt w = (Ok r, w') ->
  exists info ts,
    checkServiceHealth client = true /\ getPlaylist client pid = Ok info
    /\ getPlaylistTracks client pid = Ok ts
    /\ Orchestrator.syncTracks config pt ts emptyResults w = (Ok r, w').
Proof.
  unfold Orchestrator.syncPlaylistOf, tryCatch, bind, lift, throw.
  destruct (checkServiceHealth client); simpl; [|done].
  destruct (getPlaylist client pid) as [info|]; [|done].
  destruct (getPlaylistTracks client pid) as [ts|]; [|done].
  intros H. exists info, ts. repeat split.
  destruct (syncTracks_total config pt ts (mkResults 0 0 0 0 []) w)
    as (r2 & w2 & E & _).
  unfold emptyResults. rewrite E in *. by simplify_eq.
Qed.

End TwoRuns.

(** C5, as amended.  With the dry run off, let a driver run on a playlist
    and return with no error counted, and let it run again on the unchanged
    playlist from the sink the first run left, with no failing query.  If
    every track of the playlist has an ISRC, or a title and an artist, the
    second run returns, creates nothing, updates nothing, counts no error,
    skips every track, and leaves the pages of the sink as they are. *)
Theorem second_run_skips_all (config : Config.Exports) (client : MusicClient)
    (driver : MusicClient -> string -> string -> M Results)
    (pid pt : string) (ts : list Track) (r1 : Results) (w0 w1 : World) :
  driver = Orchestrator.syncSpotifyPlaylist config
  \/ driver = Orchestrator.syncAppleMusicPlaylist config ->
  Config.dryRun config = false ->
  getPlaylistTracks client pid = Ok ts ->
  (forall t, t ∈ ts -> identifiable t = true) ->
  driver client pid pt w0 = (Ok r1, w1) ->
  errors r1 = 0%nat ->
  (forall n, (tick w1 <= n)%nat -> fails w1 n = false) ->
  exists r2 w2,
    driver client pid pt w1 = (Ok r2, w2)
    /\ counts r2 = (0, 0, length ts, 0)%nat
    /\ pages w2 = pages w1.
Proof.
  intros Hd live Hts Hid E1 He F.
  assert (exists msg, driver = fun c =>
            Orchestrator.syncPlaylistOf config c msg) as [msg ->].
  { destruct Hd as [-> | ->]; eexists; reflexivity. }
  destruct (syncPlaylistOf_returns config client msg pid pt r1 w0 w1 E1)
    as (info & ts' & Hh & Hp & Hts' & E).
  rewrite Hts in Hts'. simplify_eq.
  destruct (syncTracks_leaves_found config live pt ts' _ _ _ _ E) as [_ Hfound].
  destruct (syncTracks_all_found config live pt ts' emptyResults w1 F)
    as (r2 & w2 & E2 & HS & H1 & H2 & H3 & H4).
  { intros t Ht. apply Hfound; [by rewrite He|done|by apply Hid]. }
  exists r2, w2.
  rewrite (syncPlaylistOf_healthy config client msg pid pt info ts' w1)
    by done.
  split; [done|]. split; [|apply HS].
  unfold counts. simpl in *. by rewrite H1, H2, H3, H4.
Qed.

Lemma second_run_skips_all_witness :
  let first :=
    Orchestrator.syncSpotifyPlaylist (Sample.live false)
      (Sample.clientOf fiveTracks) "sp-1" "Source" Sample.sink2 in
  (counts <$> returned first) = Some (3, 0, 2, 0)%nat
  /\ exists r2 w2,
       Orchestrator.syncSpotifyPlaylist (Sample.live false)
         (Sample.clientOf fiveTracks) "sp-1" "Source" (snd first)
       = (Ok r2, w2)
       /\ counts r2 = (0, 0, 5, 0)%nat /\ pages w2 = pages (snd first).
Proof.
  cbv zeta. split; [vm_compute; reflexivity|].
  destruct (Orchestrator.syncSpotifyPlaylist (Sample.live false)
              (Sample.clientOf fiveTracks) "sp-1" "Source" Sample.sink2)
    as [[r1|e] w1] eqn:E1; [|vm_compute in E1; discriminate].
  cbn [snd].
  apply (second_run_skips_all (Sample.live false)
           (Sample.clientOf fiveTracks)
           (Orchestrator.syncSpotifyPlaylist (Sample.live false))
           "sp-1" "Source" fiveTracks r1 Sample.sink2 w1).
  - left. reflexivity.
  - reflexivity.
  - reflexivity.
  - intros t Ht. unfold fiveTracks in Ht.
    repeat (apply elem_of_cons in Ht; destruct Ht as [-> | Ht]);
      [reflexivity..|by apply elem_of_nil in Ht].
  - exact E1.
  - vm_compute in E1. injection E1 as <- _. reflexivity.
  - vm_compute in E1. injection E1 as _ <-. intros n _. reflexivity.
Defined.

(** C5, as stated, fails.  In a dry run the second run creates again what
    the first run reported as created; and in a real run a track that has
    neither ISRC nor artist is created by the first run and created again by
    the second. *)
Lemma second_run_creates_again :
  (let driver :=
     Orchestrator.syncSpotifyPlaylist (Sample.live true)
       (Sample.clientOf [Sample.hurt]) "sp-1" "Source" in
   (counts <$> returned (driver Sample.emptySink)) = Some (1, 0, 0, 0)%nat
   /\ (counts <$> returned (driver (snd (driver Sample.emptySink))))
      = Some (1, 0, 0, 0)%nat)
  /\ (let driver :=
        Orchestrator.syncSpotifyPlaylist (Sample.live false)
          (Sample.clientOf [untitledArtist]) "sp-1" "Source" in
      (counts <$> returned (driver Sample.emptySink)) = Some (1, 0, 0, 0)%nat
      /\ (counts <$> returned (driver (snd (driver Sample.emptySink))))
         = Some (1, 0, 0, 0)%nat
      /\ length (pages (snd (driver (snd (driver Sample.emptySink))))) = 2%nat).
Proof. vm_compute. auto. Qed.

(** ** The Cleanup Reconciler *)

Arguments Orchestrator.trackExists : simpl never.
Arguments Orchestrator.manuallyAdded : simpl never.

Section LiveSet.



Lemma currentTrackIds_returns (live : list Track) (ids0 : gset string) :
  (forall t, t ∈ live -> is_Some (artist t)) ->
  exists ids, Orchestrator.currentTrackIds live ids0 = Ok ids.
Proof.
  revert ids0. induction live as [|t live IH]; intros ids0 H.
  - by exists ids0.
  - cbn [Orchestrator.currentTrackIds].
    destruct (H t) as [a ->]; [set_solver|]. apply IH.
    intros x Hx. apply H. set_solver.
Qed.




End LiveSet.

Section Marks.

Lemma patch_idemp (props : gmap string PropValue) (p : Page) :
  patch props (patch props p) = patch props p.
Proof.
  unfold patch. simpl. f_equal.
  by rewrite (assoc_L (∪)), (idemp_L (∪)).
Qed.

Lemma mark_id (marks : list string) (p : Page) : id (mark marks p) = id p.
Proof. unfold mark. by destruct (bool_decide _). Qed.

Lemma mark_nil (ps : list Page) : mark [] <$> ps = ps.
Proof.
  induction ps as [|p ps IH]; [done|]. rewrite fmap_cons, IH.
  unfold mark. by rewrite bool_decide_eq_false_2 by apply not_elem_of_nil.
Qed.

Lemma patchPage_mark (i : string) (marks : list string) (p : Page) :
  patchPage i removedProps (mark marks p) = mark (i :: marks) p.
Proof.
  unfold patchPage. rewrite mark_id. unfold mark.
  destruct (decide (id p = i)) as [<- | Hne].
  - rewrite (bool_decide_eq_true_2 (id p ∈ id p :: marks)) by set_solver.
    destruct (bool_decide (id p ∈ marks)); [apply patch_idemp|done].
  - destruct (bool_decide_reflect (id p ∈ marks)) as [H|H].
    + by rewrite bool_decide_eq_true_2 by set_solver.
    + by rewrite bool_decide_eq_false_2 by set_solver.
Qed.

Lemma find_id_elem (i : string) (l : list Page) :
  i ∈ id <$> l -> is_Some (List.find (fun q => bool_decide (id q = i)) l).
Proof.
  intros H. apply list_elem_of_fmap in H as (p & -> & Hp).
  by apply find_by_id.
Qed.


Variable config : Config.Exports.
Variable ids : gset string.

Lemma checkTracks_step (x : Page) (rest : list Page) (res : CleanupResults)
    (w : World) :
  Orchestrator.checkTracks config ids (x :: rest) res w =
  if stale ids x
  then match NotionClient.markTrackRemoved config (id x) w with
       | (Ok _, w1) =>
           Orchestrator.checkTracks config ids rest
             (Orchestrator.countMarked res) w1
       | (Throw _, w1) =>
           Orchestrator.checkTracks config ids rest
             (Orchestrator.countCleanupError res) w1
       end
  else Orchestrator.checkTracks config ids rest res w.
Proof.
  cbn [Orchestrator.checkTracks]. unfold stale, bind at 1, tryCatch.
  destruct (Orchestrator.manuallyAdded x); [reflexivity|].
  destruct (Orchestrator.trackExists ids x); [reflexivity|]. simpl.
  unfold bind, ret.
  destruct (NotionClient.markTrackRemoved config (id x) w) as [[?|?] ?];
    reflexivity.
Qed.

Variable ps0 : list Page.

(** The loop over the records: it returns; the sink it leaves is the sink
    it started from with some stale records marked; every stale record is
    counted, as marked or as error; and in a real run without failing
    request every stale record is marked. *)
Lemma checkTracks_marks (records : list Page) :
  forall (res : CleanupResults) (w : World) (marks : list string),
    pages w = mark marks <$> ps0 ->
    exists res' w' marks',
      Orchestrator.checkTracks config ids records res w = (Ok res', w')
      /\ pages w' = mark marks' <$> ps0
      /\ fails w' = fails w /\ (tick w <= tick w')%nat
      /\ (forall i, i ∈ marks' ->
            i ∈ marks
            \/ exists x, x ∈ records /\ id x = i /\ stale ids x = true)
      /\ (marked res' + cleanup_errors res'
          = marked res + cleanup_errors res
            + length (List.filter (stale ids) records))%nat
      /\ (Config.dryRun config = false ->
          (forall n, (tick w <= n)%nat -> fails w n = false) ->
          (forall x, x ∈ records -> id x ∈ id <$> ps0) ->
          (forall x, x ∈ records -> stale ids x = true -> id x ∈ marks')
          /\ (forall i, i ∈ marks -> i ∈ marks')
          /\ marked res'
             = (marked res + length (List.filter (stale ids) records))%nat
          /\ cleanup_errors res' = cleanup_errors res).
Proof.
  induction records as [|x rest IH]; intros res w marks Hw.
  - exists res, w, marks. simpl. repeat split; auto with lia.
    intros y Hy. by apply elem_of_nil in Hy.
  - rewrite checkTracks_step. cbn [List.filter].
    destruct (stale ids x) eqn:Hx.
    + rewrite markTrackRemoved_run.
      destruct (Config.dryRun config) eqn:Hdry.
      { destruct (IH (Orchestrator.countMarked res) w marks Hw)
          as (res' & w' & marks' & E & Hp & Hf & Ht & Hm & Hc & _).
        exists res', w', marks'. repeat split; try done.
        - intros i Hi. destruct (Hm i Hi) as [?|(y & ? & ? & ?)]; [by left|].
          right. exists y. set_solver.
        - simpl in *. lia. }
      destruct (fails w (tick w)) eqn:Hfail.
      { destruct (IH (Orchestrator.countCleanupError res) (ticked w) marks Hw)
          as (res' & w' & marks' & E & Hp & Hf & Ht & Hm & Hc & _).
        exists res', w', marks'. split; [done|]. split; [done|].
        split; [done|]. split; [simpl in Ht; lia|]. split.
        - intros i Hi. destruct (Hm i Hi) as [?|(y & ? & ? & ?)]; [by left|].
          right. exists y. set_solver.
        - split; [simpl in *; lia|]. intros _ F. rewrite F in Hfail; [done|lia]. }
      destruct (List.find (fun p => bool_decide (id p = id x)) (pages w))
        as [q|] eqn:Hfind.
      * destruct (IH (Orchestrator.countMarked res)
                    (withPatch (id x) removedProps w) (id x :: marks))
          as (res' & w' & marks' & E & Hp & Hf & Ht & Hm & Hc & Hlive).
        { simpl. rewrite Hw, <- list_fmap_compose. apply list_fmap_ext.
          intros ? p _. simpl. apply patchPage_mark. }
        exists res', w', marks'. split; [done|]. split; [done|].
        split; [done|]. split; [simpl in Ht; lia|]. split.
        { intros i Hi. destruct (Hm i Hi) as [Hi'|(y & ? & ? & ?)].
          - apply elem_of_cons in Hi' as [-> | ?]; [|by left].
            right. exists x. set_solver.
          - right. exists y. set_solver. }
        split; [simpl in *; lia|]. intros _ F Hids.
        destruct Hlive as (H1 & H2 & H3 & H4); [done| |set_solver|].
        { intros n Hn. simpl in *. apply F. lia. }
        split; [|split; [set_solver|simpl in *; split; lia]].
        intros y Hy Hs. apply elem_of_cons in Hy as [-> | Hy]; [|by apply H1].
        apply H2. set_solver.
      * destruct (IH (Orchestrator.countCleanupError res) (ticked w) marks Hw)
          as (res' & w' & marks' & E & Hp & Hf & Ht & Hm & Hc & _).
        exists res', w', marks'. split; [done|]. split; [done|].
        split; [done|]. split; [simpl in Ht; lia|]. split.
        { intros i Hi. destruct (Hm i Hi) as [?|(y & ? & ? & ?)]; [by left|].
          right. exists y. set_solver. }
        split; [simpl in *; lia|]. intros _ F Hids. exfalso.
        destruct (find_id_elem (id x) (pages w)) as [? Hsome].
        { rewrite Hw, <- list_fmap_compose.
          erewrite list_fmap_ext; [apply Hids; set_solver|].
          intros ? p _. simpl. apply mark_id. }
        by rewrite Hsome in Hfind.
    + destruct (IH res w marks Hw)
        as (res' & w' & marks' & E & Hp & Hf & Ht & Hm & Hc & Hlive).
      exists res', w', marks'. split; [done|]. split; [done|].
      split; [done|]. split; [done|]. split.
      { intros i Hi. destruct (Hm i Hi) as [?|(y & ? & ? & ?)]; [by left|].
        right. exists y. set_solver. }
      split; [done|]. intros D F Hids.
      destruct Hlive as (L1 & L2 & L3 & L4); [done|done|set_solver|].
      repeat split; try done.
      intros y Hy Hs. apply elem_of_cons in Hy as [-> | Hy]; [congruence|].
      by apply L1.
Qed.

End Marks.

Section Cleanup.
Variable config : Config.Exports.
Variable sp am : MusicClient.

Lemma elem_of_List_filter (f : Page -> bool) (l : list Page) (x : Page) :
  x ∈ List.filter f l <-> f x = true /\ x ∈ l.
Proof.
  rewrite !list_elem_of_In, filter_In. tauto.
Qed.

Lemma checkTracks_returns (ids : gset string) (records : list Page)
    (res : CleanupResults) (w : World) :
  exists res' w',
    Orchestrator.checkTracks config ids records res w = (Ok res', w').
Proof.
  destruct (checkTracks_marks config ids (pages w) records res w [])
    as (res' & w' & _ & E & _); [by rewrite mark_nil|]. eauto.
Qed.

Lemma cleanupRemovedTracks_run (w : World) :
  Orchestrator.cleanupRemovedTracks config sp am w =
  if fails w (tick w)
  then (Throw (ApiError "request failed"), ticked w)
  else match Orchestrator.currentTrackIds (liveTracks config sp am) ∅ with
       | Ok ids =>
           Orchestrator.checkTracks config ids
             (List.filter (matchesFilter (CheckboxEquals "Removed" false))
                          (pages w))
             (mkCleanupResults 0 0) (ticked w)
       | Throw e => (Throw e, ticked w)
       end.
Proof.
  unfold Orchestrator.cleanupRemovedTracks, tryCatch, bind, lift, throw.
  rewrite queryDatabase_run.
  destruct (fails w (tick w)); [reflexivity|].
  fold (liveTracks config sp am).
  destruct (Orchestrator.currentTrackIds (liveTracks config sp am) ∅)
    as [ids|e]; [|reflexivity].
  destruct (checkTracks_returns ids
              (List.filter (matchesFilter (CheckboxEquals "Removed" false))
                           (pages w))
              (mkCleanupResults 0 0) (ticked w)) as (res' & w' & ->).
  reflexivity.
Qed.

End Cleanup.



(** ** The full sync *)

Section FullSync.
Variable config : Config.Exports.
Variable sp am : MusicClient.

Lemma syncPlaylists_returns (ps : list Config.Configured) (s : Summary)
    (w : World) :
  exists s' w', Orchestrator.syncPlaylists config sp am ps s w = (Ok s', w').
Proof.
  revert s w. induction ps as [|p ps IH]; intros s w; [by exists s, w|].
  cbn [Orchestrator.syncPlaylists]. unfold bind at 1, tryCatch.
  destruct (bind _ _ w) as [[s1|e] w1]; apply IH.
Qed.

Lemma syncAllPlaylists_returns (w : World) :
  exists s w', Orchestrator.syncAllPlaylists config sp am w = (Ok s, w').
Proof.
  unfold Orchestrator.syncAllPlaylists, tryCatch.
  destruct (syncPlaylists_returns (Config.getAllConfiguredPlaylists config)
              (mkSummary (mkCounts 0 0 0 0) (mkCounts 0 0 0 0)
                         (mkTotal 0 0 0 0)) w) as (s & w' & ->).
  eauto.
Qed.

Lemma fullSync_run (w : World) :
  Orchestrator.fullSync config sp am w =
  match Orchestrator.syncAllPlaylists config sp am w with
  | (Ok s, w1) =>
      match Orchestrator.cleanupRemovedTracks config sp am w1 with
      | (Ok c, w2) => (Ok (mkFullResults s c true), w2)
      | (Throw e, w2) => (Throw e, w2)
      end
  | (Throw e, w1) => (Throw e, w1)
  end.
Proof.
  unfold Orchestrator.fullSync, tryCatch, bind, throw, ret.
  destruct (Orchestrator.syncAllPlaylists config sp am w) as [[s|e] w1];
    [|reflexivity].
  destruct (Orchestrator.cleanupRemovedTracks config sp am w1) as [[c|e] w2];
    reflexivity.
Qed.

End FullSync.

(** C4, as amended.  The sync of all playlists always returns a summary,
    whatever fails in it.  If then the first query of the cleanup succeeds
    and every live track has an artist, the full sync returns its results,
    with that summary; a run in which every item failed returns a summary
    of errors.  If the first query of the cleanup fails, the cleanup throws
    the error of the sink and the full sync throws it again. *)
Theorem full_sync_returns_unless_cleanup_query_fails
    (config : Config.Exports) (sp am : MusicClient) (w : World) :
  exists summary w1,
    Orchestrator.syncAllPlaylists config sp am w = (Ok summary, w1)
    /\ (fails w1 (tick w1) = false ->
        (forall t, t ∈ liveTracks config sp am -> is_Some (artist t)) ->
        exists c w2,
          Orchestrator.fullSync config sp am w
          = (Ok (mkFullResults summary c true), w2))
    /\ (fails w1 (tick w1) = true ->
        Orchestrator.cleanupRemovedTracks config sp am w1
        = (Throw (ApiError "request failed"), ticked w1)
        /\ Orchestrator.fullSync config sp am w
           = (Throw (ApiError "request failed"), ticked w1))
    /\ (let all_failed :=
          returned (Orchestrator.fullSync (Sample.live false) Sample.down
                      Sample.down onlyFirstSucceeds) in
        (t_errors <$> (s_total <$> (sync <$> all_failed))) = Some 1%nat
        /\ (cleanup <$> all_failed) = Some (mkCleanupResults 0 3)).
Proof.
  destruct (syncAllPlaylists_returns config sp am w) as (s & w1 & E).
  exists s, w1. split; [exact E|]. rewrite fullSync_run, E.
  rewrite cleanupRemovedTracks_run. split; [|split; [|split]].
  - intros F Hart. rewrite F.
    destruct (currentTrackIds_returns (liveTracks config sp am) ∅ Hart)
      as [ids ->].
    destruct (checkTracks_returns config ids
                (List.filter (matchesFilter (CheckboxEquals "Removed" false))
                             (pages w1))
                (mkCleanupResults 0 0) (ticked w1)) as (c & w2 & ->).
    eauto.
  - intros F. by rewrite F.
  - vm_compute. reflexivity.
  - vm_compute. reflexivity.
Qed.

Lemma full_sync_returns_witness :
  (processed <$> (s_total <$> (sync <$>
     returned (Orchestrator.fullSync (Sample.live false)
                 (Sample.clientOf twoLive) Sample.down cleanupSink))))
  = Some 1%nat.
Proof.
  destruct (full_sync_returns_unless_cleanup_query_fails (Sample.live false)
              (Sample.clientOf twoLive) Sample.down cleanupSink)
    as (s & w1 & E & H & _).
  vm_compute in E. injection E as <- <-.
  destruct H as (c & w2 & ->); [reflexivity| |reflexivity].
  intros t Ht. change (t ∈ twoLive) in Ht. unfold twoLive in Ht.
  repeat (apply elem_of_cons in Ht; destruct Ht as [-> | Ht]);
    [by eexists..|by apply elem_of_nil in Ht].
Defined.

(** C4, as stated, fails: with a playlist of one new track, whose sync
    succeeds, and a sink whose next request fails, the first query of the
    cleanup fails and the full sync throws instead of returning a summary. *)
Lemma full_sync_throws :
  thrown (Orchestrator.fullSync (Sample.live false)
            (Sample.clientOf [Sample.hurt]) Sample.down failingCleanupQuery)
  = Some (ApiError "request failed")
  /\ returned (Orchestrator.fullSync (Sample.live false)
                 (Sample.clientOf [Sample.hurt]) Sample.down
                 failingCleanupQuery)
     = None.
Proof. vm_compute. auto. Qed.

(** ** The Track Normalizers *)

Section Normalizers.

Lemma roundDiv_nearest (n : Z) :
  1000 * Js.roundDiv n 1000 - 500 <= n < 1000 * Js.roundDiv n 1000 + 500.
Proof.
  unfold Js.roundDiv.
  pose proof (Z.div_mod (2 * n + 1000) (2 * 1000) ltac:(lia)) as H.
  pose proof (Z.mod_pos_bound (2 * n + 1000) (2 * 1000) ltac:(lia)) as B.
  lia.
Qed.

(** The Spotify normalizer on the duration. *)
Lemma spotify_duration (api : Spotify.Api) (track : Spotify.RawTrack)
    (playlistId : string) :
  duration (Spotify.processTrackData api track playlistId) =
  match Spotify.raw_duration_ms track with
  | Some ms => if ms =? 0 then Js.Null else Js.Num (Js.roundDiv ms 1000)
  | None => Js.Null
  end.
Proof. reflexivity. Qed.

(** The Apple Music normalizer on the duration, when it returns. *)
Lemma apple_duration (config : Config.value) (api : AppleMusic.Api)
    (track : AppleMusic.RawTrack) (playlistId : string) (t : Track) :
  AppleMusic.processTrackData config api track playlistId = Ok t ->
  duration t =
  match AppleMusic.attr_durationInMillis (AppleMusic.raw_attributes track) with
  | Some ms => if ms =? 0 then Js.Null else Js.Num (Js.roundDiv ms 1000)
  | None => Js.Null
  end.
Proof.
  unfold AppleMusic.processTrackData, rbind.
  destruct (Config.getProperty config "playlistTypes") as [pt|]; [|done].
  destruct (Config.getProperty pt playlistId) as [entry|]; [|done].
  by intros [= <-].
Qed.

(** Reading [playlistTypes[playlistId]] off the exports of config.js. *)
Lemma playlistTypes_undefined (c : Config.Exports) :
  Config.getProperty (Config.module_exports c) "playlistTypes"
  = Ok Config.VUndefined.
Proof. reflexivity. Qed.

Lemma apple_processTrackData_throws (c : Config.Exports)
    (api : AppleMusic.Api) (track : AppleMusic.RawTrack)
    (playlistId : string) :
  AppleMusic.processTrackData (Config.module_exports c) api track playlistId
  = Throw (TypeError "Cannot read properties of undefined").
Proof. reflexivity. Qed.

End Normalizers.

(** C9, as amended.  For every raw Spotify track whose duration in
    milliseconds is given and is not zero, the normalizer sets the duration
    of the track to the milliseconds divided by 1000 and rounded to the
    nearest whole second, a half rounded up; when the duration is missing or
    zero, the duration of the track is null and no number.  Whenever the
    Apple Music normalizer returns a track, the same holds of it. *)
Theorem duration_in_whole_seconds :
  (forall api track playlistId ms,
     Spotify.raw_duration_ms track = Some ms -> ms <> 0 ->
     exists s,
       duration (Spotify.processTrackData api track playlistId) = Js.Num s
       /\ s = Js.roundDiv ms 1000
       /\ 1000 * s - 500 <= ms < 1000 * s + 500)
  /\ (forall api track playlistId,
        Spotify.raw_duration_ms track = None
        \/ Spotify.raw_duration_ms track = Some 0 ->
        duration (Spotify.processTrackData api track playlistId) = Js.Null)
  /\ (forall config api track playlistId t ms,
        AppleMusic.processTrackData config api track playlistId = Ok t ->
        AppleMusic.attr_durationInMillis (AppleMusic.raw_attributes track)
        = Some ms ->
        ms <> 0 ->
        exists s,
          duration t = Js.Num s /\ s = Js.roundDiv ms 1000
          /\ 1000 * s - 500 <= ms < 1000 * s + 500)
  /\ (forall config api track playlistId t,
        AppleMusic.processTrackData config api track playlistId = Ok t ->
        AppleMusic.attr_durationInMillis (AppleMusic.raw_attributes track)
        = None
        \/ AppleMusic.attr_durationInMillis (AppleMusic.raw_attributes track)
           = Some 0 ->
        duration t = Js.Null).
Proof.
  split; [|split; [|split]].
  - intros api track playlistId ms E Hms.
    exists (Js.roundDiv ms 1000). rewrite spotify_duration, E.
    destruct (Z.eqb_spec ms 0); [done|].
    split; [done|]. split; [done|]. apply roundDiv_nearest.
  - intros api track playlistId [E|E]; by rewrite spotify_duration, E.
  - intros config api track playlistId t ms Ht E Hms.
    exists (Js.roundDiv ms 1000). rewrite (apple_duration _ _ _ _ _ Ht), E.
    destruct (Z.eqb_spec ms 0); [done|].
    split; [done|]. split; [done|]. apply roundDiv_nearest.
  - intros config api track playlistId t Ht [E|E];
      by rewrite (apple_duration _ _ _ _ _ Ht), E.
Qed.

Lemma duration_in_whole_seconds_witness :
  duration (Spotify.processTrackData spotifyApi (spotifyRaw (Some 200500))
              "sp-1") = Js.Num 201
  /\ (duration <$> given
        (AppleMusic.processTrackData firstConfig (appleApi [])
           (appleRaw (Some 200499)) "pl.1"))
     = Some (Js.Num 200).
Proof.
  destruct duration_in_whole_seconds as (H1 & _ & H3 & _).
  split.
  - destruct (H1 spotifyApi (spotifyRaw (Some 200500)) "sp-1" 200500
                eq_refl ltac:(done)) as (s & -> & -> & _).
    reflexivity.
  - destruct (AppleMusic.processTrackData firstConfig (appleApi [])
                (appleRaw (Some 200499)) "pl.1") as [t|e] eqn:E;
      [|vm_compute in E; discriminate].
    destruct (H3 firstConfig (appleApi []) (appleRaw (Some 200499)) "pl.1"
                t 200499 E eq_refl ltac:(done)) as (s & Hs & -> & _).
    simpl. rewrite Hs. reflexivity.
Defined.

(** C9, as stated, fails: a duration of zero milliseconds is given, and the
    normalizer sets no duration of zero seconds but null; and for an Apple
    Music track with the exports of config.js the normalizer returns no
    track at all. *)
Lemma zero_duration_is_null :
  Spotify.raw_duration_ms (spotifyRaw (Some 0)) = Some 0
  /\ Js.roundDiv 0 1000 = 0
  /\ duration (Spotify.processTrackData spotifyApi (spotifyRaw (Some 0)) "sp-1")
     = Js.Null
  /\ given
       (AppleMusic.processTrackData (Config.module_exports (Sample.live false))
          (appleApi []) (appleRaw (Some 200500)) "pl.1")
     = None.
Proof. vm_compute. auto. Qed.

Section AppleMusicSync.
Variable c : Config.Exports.
Variable api : AppleMusic.Api.

Lemma apple_processItems (items : list AppleMusic.RawTrack)
    (playlistId : string) (tracks : list Track) :
  match AppleMusic.processItems (Config.module_exports c) api items
                                playlistId tracks with
  | Ok ts => ts = tracks /\ Forall (fun x => AppleMusic.raw_type x <> "songs") items
  | Throw e =>
      e = TypeError "Cannot read properties of undefined"
      /\ Exists (fun x => AppleMusic.raw_type x = "songs") items
  end.
Proof.
  induction items as [|x items IH]; [by split|].
  cbn [AppleMusic.processItems].
  destruct (decide (AppleMusic.raw_type x = "songs")) as [Hx|Hx].
  - rewrite apple_processTrackData_throws. simpl.
    split; [done|]. by apply Exists_cons_hd.
  - destruct (AppleMusic.processItems _ _ items playlistId tracks).
    + destruct IH. split; [done|]. by apply Forall_cons.
    + destruct IH. split; [done|]. by apply Exists_cons_tl.
Qed.

Lemma apple_collectPages (ps : Pages AppleMusic.RawTrack)
    (playlistId : string) (tracks : list Track) :
  match AppleMusic.collectPages (Config.module_exports c) api ps
                                playlistId tracks with
  | Ok ts => ts = tracks
  | Throw _ => True
  end.
Proof.
  revert tracks. induction ps as [e|items|items next IH]; intros tracks.
  - done.
  - cbn [AppleMusic.collectPages].
    pose proof (apple_processItems items playlistId tracks) as H.
    destruct (AppleMusic.processItems _ _ items playlistId tracks);
      [by destruct H|done].
  - cbn [AppleMusic.collectPages].
    pose proof (apple_processItems items playlistId tracks) as H.
    destruct (AppleMusic.processItems _ _ items playlistId tracks) as [ts|];
      [|done].
    destruct H as [-> _]. simpl. apply IH.
Qed.

(** The Apple Music client never returns a track. *)
Lemma apple_getPlaylistTracks (playlistId : string) :
  match AppleMusic.getPlaylistTracks (Config.module_exports c) api
                                     playlistId with
  | Ok ts => ts = []
  | Throw _ => True
  end.
Proof. apply apple_collectPages. Qed.

End AppleMusicSync.

(** C10.  The exports of config.js have no property [playlistTypes]; for
    every configuration, every raw Apple Music track and every playlist the
    normalizer throws the [TypeError] of reading a property of [undefined],
    and returns no track.  So the client returns the empty list of tracks or
    throws: it throws that [TypeError] as soon as a page of the playlist has
    a song.  So a sync of an Apple Music playlist throws or returns results
    in which no track is created, updated, skipped or counted as error, and
    in both cases the sink is left untouched. *)
Theorem apple_music_never_syncs_a_track (c : Config.Exports)
    (api : AppleMusic.Api) :
  Config.getProperty (Config.module_exports c) "playlistTypes"
  = Ok Config.VUndefined
  /\ (forall track playlistId,
        AppleMusic.processTrackData (Config.module_exports c) api track
                                    playlistId
        = Throw (TypeError "Cannot read properties of undefined"))
  /\ (forall playlistId,
        given (AppleMusic.getPlaylistTracks (Config.module_exports c) api
                                            playlistId) = Some []
        \/ given (AppleMusic.getPlaylistTracks (Config.module_exports c) api
                                               playlistId) = None)
  /\ (forall playlistId items song,
        AppleMusic.api_tracks api playlistId = LastPage items
        \/ (exists next,
              AppleMusic.api_tracks api playlistId = NextPage items next) ->
        song ∈ items -> AppleMusic.raw_type song = "songs" ->
        AppleMusic.getPlaylistTracks (Config.module_exports c) api playlistId
        = Throw (TypeError "Cannot read properties of undefined"))
  /\ (forall playlistId playlistType w,
        let run :=
          Orchestrator.syncAppleMusicPlaylist c
            (AppleMusic.client (Config.module_exports c) api)
            playlistId playlistType w in
        snd run = w
        /\ (returned run = Some emptyResults \/ returned run = None)).
Proof.
  split; [reflexivity|]. split; [intros; reflexivity|].
  assert (Hget : forall playlistId,
            given (AppleMusic.getPlaylistTracks (Config.module_exports c) api
                     playlistId) = Some []
            \/ given (AppleMusic.getPlaylistTracks (Config.module_exports c)
                        api playlistId) = None).
  { intros playlistId. pose proof (apple_getPlaylistTracks c api playlistId).
    destruct (AppleMusic.getPlaylistTracks _ api playlistId);
      [left; by subst|by right]. }
  split; [exact Hget|]. split.
  - intros playlistId items song Hpages Hin Hsong.
    assert (Hex : Exists (fun x => AppleMusic.raw_type x = "songs") items).
    { apply Exists_exists. eauto. }
    unfold AppleMusic.getPlaylistTracks.
    pose proof (apple_processItems c api items playlistId []) as H.
    destruct Hpages as [-> | [next ->]]; cbn [AppleMusic.collectPages];
      destruct (AppleMusic.processItems _ api items playlistId []);
      destruct H as [? H]; subst; try done;
      by (apply Forall_Exists_neg in H).
  - intros playlistId playlistType w run. subst run.
    unfold Orchestrator.syncAppleMusicPlaylist, Orchestrator.syncPlaylistOf,
      returned, tryCatch, bind, lift, throw.
    cbn [checkServiceHealth getPlaylist getPlaylistTracks AppleMusic.client].
    destruct (AppleMusic.checkServiceHealth api); simpl; [|by auto].
    destruct (AppleMusic.getPlaylist api playlistId); simpl; [|by auto].
    destruct (Hget playlistId) as [H|H];
      destruct (AppleMusic.getPlaylistTracks _ api playlistId);
      simpl in H; simplify_eq; simpl; auto.
Qed.

(** * Further properties of the orchestrator *)

Section MoreOrchestrator.
Variable config : Config.Exports.
Variable sp am : MusicClient.

Lemma currentTrackIds_throws (live : list Track) (ids0 : gset string) :
  (exists t, t ∈ live /\ artist t = None) ->
  Orchestrator.currentTrackIds live ids0
  = Throw (TypeError "Cannot read properties of undefined").
Proof.
  revert ids0. induction live as [|x live IH]; intros ids0 (t & Ht & Ha).
  - by apply elem_of_nil in Ht.
  - cbn [Orchestrator.currentTrackIds].
    destruct (artist x) as [a|] eqn:Ex; [|done].
    apply IH. exists t. split; [|done].
    apply elem_of_cons in Ht as [-> | Ht]; [congruence|done].
Qed.

Lemma accumulate_balanced (svc : Config.Service) (r : Results) (s : Summary) :
  balanced s -> balanced (Orchestrator.accumulate svc r s).
Proof.
  unfold balanced. intros (H1 & H2 & H3 & H4).
  destruct svc; simpl; repeat split; lia.
Qed.

Lemma failed_balanced (svc : Config.Service) (s : Summary) :
  balanced s -> balanced (Orchestrator.failed svc s).
Proof.
  unfold balanced. intros (H1 & H2 & H3 & H4).
  destruct svc; simpl; repeat split; lia.
Qed.

Lemma syncPlaylists_step (p : Config.Configured)
    (rest : list Config.Configured) (s : Summary) (w : World) :
  Orchestrator.syncPlaylists config sp am (p :: rest) s w =
  match Orchestrator.syncPlaylistOf config (clientOf sp am p)
          match Config.service p with
          | Config.spotify => "Spotify service is not available"
          | Config.appleMusic => "Apple Music service is not available"
          end (Config.cid p) (Config.ctype p) w with
  | (Ok r, w1) =>
      Orchestrator.syncPlaylists config sp am rest
        (Orchestrator.accumulate (Config.service p) r s) w1
  | (Throw _, w1) =>
      Orchestrator.syncPlaylists config sp am rest
        (Orchestrator.failed (Config.service p) s) w1
  end.
Proof.
  cbn [Orchestrator.syncPlaylists]. unfold bind at 1, tryCatch, bind, ret.
  unfold clientOf, Orchestrator.syncSpotifyPlaylist,
    Orchestrator.syncAppleMusicPlaylist.
  destruct (Config.service p);
    destruct (Orchestrator.syncPlaylistOf _ _ _ _ _ w) as [[r|e] w1];
    reflexivity.
Qed.

Lemma syncPlaylists_balanced (ps : list Config.Configured) (s s' : Summary)
    (w w' : World) :
  balanced s ->
  Orchestrator.syncPlaylists config sp am ps s w = (Ok s', w') ->
  balanced s'.
Proof.
  revert s w. induction ps as [|p ps IH]; intros s w Hs E.
  - simpl in E. unfold ret in E. by simplify_eq.
  - rewrite syncPlaylists_step in E.
    destruct (Orchestrator.syncPlaylistOf _ _ _ _ _ w) as [[r|e] w1];
      eapply IH; try exact E.
    + by apply accumulate_balanced.
    + by apply failed_balanced.
Qed.

(** A playlist sync returns exactly when the service is available, and a
    sync that throws has made no request to the sink. *)
Lemma syncPlaylistOf_available (client : MusicClient) (msg pid pt : string)
    (w : World) :
  if available client pid
  then exists r w',
         Orchestrator.syncPlaylistOf config client msg pid pt w = (Ok r, w')
  else exists e,
         Orchestrator.syncPlaylistOf config client msg pid pt w = (Throw e, w).
Proof.
  unfold available, Orchestrator.syncPlaylistOf, tryCatch, bind, lift, throw.
  destruct (checkServiceHealth client); simpl; [|by eauto].
  destruct (getPlaylist client pid) as [info|e]; simpl; [|by eauto].
  destruct (getPlaylistTracks client pid) as [ts|e]; simpl; [|by eauto].
  destruct (syncTracks_total config pt ts (mkResults 0 0 0 0 []) w)
    as (r & w' & E & _).
  rewrite E. eauto.
Qed.

End MoreOrchestrator.

(** X1.  If the first query of the cleanup succeeds and one of the live
    tracks has no artist, the cleanup throws a [TypeError] before it examines
    any record: no page of the sink is changed, and a full sync whose sync
    of the playlists left such a state throws that error too. *)
Theorem cleanup_throws_on_live_track_without_artist
    (config : Config.Exports) (sp am : MusicClient) (w : World) :
  fails w (tick w) = false ->
  (exists t, t ∈ liveTracks config sp am /\ artist t = None) ->
  Orchestrator.cleanupRemovedTracks config sp am w
  = (Throw (TypeError "Cannot read properties of undefined"), ticked w)
  /\ pages (ticked w) = pages w
  /\ forall w0 s,
       Orchestrator.syncAllPlaylists config sp am w0 = (Ok s, w) ->
       Orchestrator.fullSync config sp am w0
       = (Throw (TypeError "Cannot read properties of undefined"), ticked w).
Proof.
  intros F H.
  assert (E : Orchestrator.cleanupRemovedTracks config sp am w
              = (Throw (TypeError "Cannot read properties of undefined"),
                 ticked w)).
  { rewrite cleanupRemovedTracks_run, F.
    by rewrite (currentTrackIds_throws _ ∅ H). }
  split; [exact E|]. split; [reflexivity|].
  intros w0 s E0. by rewrite fullSync_run, E0, E.
Qed.

Lemma cleanup_throws_on_live_track_without_artist_witness :
  thrown (Orchestrator.cleanupRemovedTracks (Sample.live false)
            oneWithoutArtist Sample.down cleanupSink)
  = Some (TypeError "Cannot read properties of undefined").
Proof.
  destruct (cleanup_throws_on_live_track_without_artist (Sample.live false)
              oneWithoutArtist Sample.down cleanupSink eq_refl)
    as (E & _).
  - exists untitledArtist. split; [|reflexivity].
    change (untitledArtist ∈ [Sample.waterloo; untitledArtist]). set_solver.
  - unfold thrown. by rewrite E.
Defined.

(** X2.  The summary the sync of all playlists returns is balanced: its
    total of errors, of skipped and of processed tracks is the sum of the
    counts of the two services, and every processed track is counted as
    successful. *)
Theorem summary_is_balanced (config : Config.Exports) (sp am : MusicClient)
    (w w' : World) (s : Summary) :
  Orchestrator.syncAllPlaylists config sp am w = (Ok s, w') -> balanced s.
Proof.
  unfold Orchestrator.syncAllPlaylists, tryCatch. intros E.
  destruct (Orchestrator.syncPlaylists config sp am
              (Config.getAllConfiguredPlaylists config)
              (mkSummary (mkCounts 0 0 0 0) (mkCounts 0 0 0 0)
                         (mkTotal 0 0 0 0)) w) as [[s1|e] w1] eqn:E1; [|done].
  simplify_eq. eapply syncPlaylists_balanced; [|exact E1].
  unfold balanced. simpl. auto.
Qed.

Lemma summary_is_balanced_witness :
  balanced
    (default (mkSummary (mkCounts 0 0 0 0) (mkCounts 0 0 0 0) (mkTotal 1 0 0 0))
       (returned (Orchestrator.syncAllPlaylists (Sample.live false)
                    (Sample.clientOf fiveTracks) Sample.down failingFifth))).
Proof.
  destruct (Orchestrator.syncAllPlaylists (Sample.live false)
              (Sample.clientOf fiveTracks) Sample.down failingFifth)
    as [[s|e] w'] eqn:E; [|vm_compute in E; discriminate].
  unfold returned. simpl.
  exact (summary_is_balanced _ _ _ _ _ _ E).
Defined.

(** X3.  A failure before the tracks of a playlist are reached is fatal for
    that playlist only.  When the service of the first configured playlist
    is unhealthy, or its playlist or its tracks cannot be fetched, the sync
    of that playlist makes no request to the sink, the summary gets one
    error for that service and the total, and the remaining playlists are
    synced from the untouched sink.  When the service is available the
    playlist sync returns and its counts are added to the summary. *)
Theorem failed_playlist_is_one_error (config : Config.Exports)
    (sp am : MusicClient) (p : Config.Configured)
    (rest : list Config.Configured) (s : Summary) (w : World) :
  (available (clientOf sp am p) (Config.cid p) = false ->
   Orchestrator.syncPlaylists config sp am (p :: rest) s w
   = Orchestrator.syncPlaylists config sp am rest
       (Orchestrator.failed (Config.service p) s) w
   /\ t_errors (s_total (Orchestrator.failed (Config.service p) s))
      = S (t_errors (s_total s)))
  /\ (available (clientOf sp am p) (Config.cid p) = true ->
      exists r w1,
        handled r
        = length (default [] (given (getPlaylistTracks (clientOf sp am p)
                                       (Config.cid p))))
        /\ Orchestrator.syncPlaylists config sp am (p :: rest) s w
           = Orchestrator.syncPlaylists config sp am rest
               (Orchestrator.accumulate (Config.service p) r s) w1).
Proof.
  rewrite syncPlaylists_step.
  set (msg := match Config.service p with
              | Config.spotify => _ | Config.appleMusic => _ end).
  pose proof (syncPlaylistOf_available config (clientOf sp am p) msg
                (Config.cid p) (Config.ctype p) w) as H.
  split; intros Ha; rewrite Ha in H.
  - destruct H as [e ->]. split; [done|]. by destruct (Config.service p).
  - destruct H as (r & w1 & E). rewrite E. exists r, w1. split; [|done].
    destruct (syncPlaylistOf_returns config _ _ _ _ _ _ _ E)
      as (info & ts & _ & _ & Hts & Es).
    rewrite Hts. simpl.
    destruct (syncTracks_total config (Config.ctype p) ts emptyResults w)
      as (r' & w' & E' & Hh & _).
    rewrite Es in E'. by simplify_eq.
Qed.

(** ** What a sync writes *)

Section Growth.
Variable config : Config.Exports.
Variable sp am : MusicClient.

Lemma syncTrackToNotion_grows (t : Track) (w : World) :
  match Orchestrator.syncTrackToNotion config t w with
  | (Ok Created, w') =>
      exists p, pages w' = (if Config.dryRun config then [] else [p]) ++ pages w
  | (_, w') => pages w' = pages w
  end.
Proof.
  destruct (findExisting_total t w) as (r & w1 & E & (Hp & _) & _).
  rewrite (syncTrackToNotion_run config t w w1 r E).
  destruct r as [p|]; [done|].
  destruct (Config.dryRun config); [by exists (mkPage "" ∅)|].
  destruct (fails w1 (tick w1)); [done|].
  exists (createdPage t w1). simpl. by rewrite Hp.
Qed.

Lemma syncTracks_grows (pt : string) (ts : list Track) (r r' : Results)
    (w w' : World) :
  Orchestrator.syncTracks config pt ts r w = (Ok r', w') ->
  exists newer,
    pages w' = newer ++ pages w
    /\ length newer = newPages config (added r' - added r)
    /\ (added r <= added r')%nat.
Proof.
  unfold newPages.
  revert r w. induction ts as [|t ts IH]; intros r w E.
  - simpl in E. unfold ret in E. simplify_eq. exists [].
    rewrite Nat.sub_diag. by destruct (Config.dryRun config).
  - rewrite syncTracks_step in E.
    pose proof (syncTrackToNotion_grows (withPlaylistInfo t pt) w) as H.
    destruct (Orchestrator.syncTrackToNotion config (withPlaylistInfo t pt) w)
      as [[o|e] w1].
    + destruct (IH _ _ E) as (newer & Hn & Hl & Hle).
      destruct o.
      * destruct H as [p Hp]. simpl in Hl, Hle.
        exists (newer ++ if Config.dryRun config then [] else [p]).
        rewrite Hn, Hp, <- (assoc_L (++)). split; [done|].
        rewrite length_app, Hl.
        destruct (Config.dryRun config); simpl; lia.
      * exists newer. rewrite Hn, H. simpl in *. done.
      * exists newer. rewrite Hn, H. simpl in *. done.
    + destruct (IH _ _ E) as (newer & Hn & Hl & Hle).
      exists newer. rewrite Hn, H. simpl in *. done.
Qed.

Lemma syncPlaylists_grows (ps : list Config.Configured) (s s' : Summary)
    (w w' : World) :
  Orchestrator.syncPlaylists config sp am ps s w = (Ok s', w') ->
  exists newer,
    pages w' = newer ++ pages w
    /\ length newer = newPages config (addedOf s' - addedOf s)
    /\ (addedOf s <= addedOf s')%nat.
Proof.
  unfold newPages.
  revert s w. induction ps as [|p ps IH]; intros s w E.
  - simpl in E. unfold ret in E. simplify_eq. exists [].
    rewrite Nat.sub_diag. by destruct (Config.dryRun config).
  - rewrite syncPlaylists_step in E.
    set (msg := match Config.service p with
                | Config.spotify => _ | Config.appleMusic => _ end) in E.
    pose proof (syncPlaylistOf_available config (clientOf sp am p) msg
                  (Config.cid p) (Config.ctype p) w) as H.
    destruct (Orchestrator.syncPlaylistOf config (clientOf sp am p) msg
                (Config.cid p) (Config.ctype p) w) as [[r|e] w1] eqn:Ep.
    + destruct (syncPlaylistOf_returns config _ _ _ _ _ _ _ Ep)
        as (info & ts & _ & _ & _ & Es).
      destruct (syncTracks_grows _ _ _ _ _ _ Es) as (n1 & Hn1 & Hl1 & _).
      destruct (IH _ _ E) as (n2 & Hn2 & Hl2 & Hle).
      assert (addedOf (Orchestrator.accumulate (Config.service p) r s)
              = (addedOf s + added r)%nat) as Ha.
      { unfold addedOf. destruct (Config.service p); simpl; lia. }
      rewrite Ha in Hl2, Hle. unfold newPages, emptyResults in Hl1.
      simpl in Hl1. rewrite Nat.sub_0_r in Hl1.
      exists (n2 ++ n1). rewrite Hn2, Hn1, <- (assoc_L (++)).
      split; [done|]. rewrite length_app, Hl1, Hl2.
      destruct (Config.dryRun config); simpl; lia.
    + assert (w1 = w) as ->.
      { destruct (available _ _); [destruct H as (? & ? & ?)|destruct H];
          congruence. }
      destruct (IH _ _ E) as (n2 & Hn2 & Hl2 & Hle).
      assert (addedOf (Orchestrator.failed (Config.service p) s) = addedOf s)
        as Ha.
      { unfold addedOf. by destruct (Config.service p). }
      rewrite Ha in Hl2, Hle. by exists n2.
Qed.

(** The cleanup only marks: whatever it returns, the sink it leaves is the
    sink it started from with some records marked. *)
Lemma cleanup_only_marks (w w' : World) (out : Result CleanupResults) :
  Orchestrator.cleanupRemovedTracks config sp am w = (out, w') ->
  exists marks, pages w' = mark marks <$> pages w.
Proof.
  rewrite cleanupRemovedTracks_run. intros E.
  destruct (fails w (tick w));
    [simplify_eq; exists []; by rewrite mark_nil|].
  destruct (Orchestrator.currentTrackIds (liveTracks config sp am) ∅)
    as [ids|e]; [|simplify_eq; exists []; by rewrite mark_nil].
  destruct (checkTracks_marks config ids (pages w)
              (List.filter (matchesFilter (CheckboxEquals "Removed" false))
                           (pages w))
              (mkCleanupResults 0 0) (ticked w) [])
    as (res' & w2 & marks & E' & Hp & _); [by rewrite mark_nil|].
  rewrite E' in E. simplify_eq. by exists marks.
Qed.

End Growth.

Lemma markedPage_removed (p : Page) :
  checkbox p Schema.REMOVED = true -> markedPage p = p.
Proof.
  unfold checkbox, markedPage, patch, removedProps. intros H.
  destruct p as [i m]. simpl in *. f_equal.
  destruct (m !! Schema.REMOVED) as [[| | | | |[]]|] eqn:E; try done.
  rewrite <- insert_union_singleton_l. by apply insert_id.
Qed.

Lemma markedPage_lookup (p : Page) (name : string) :
  name <> Schema.REMOVED ->
  properties (markedPage p) !! name = properties p !! name.
Proof.
  intros H. unfold markedPage. rewrite patch_lookup. unfold removedProps.
  by rewrite lookup_singleton_ne.
Qed.

(** X4.  The sync of all playlists only adds.  The sink it leaves is the
    sink it started from, page for page, with the created pages in front;
    in a real run there are exactly as many new pages as the summary counts
    as added for the two services, and in a dry run there is none. *)
Theorem sync_only_adds (config : Config.Exports) (sp am : MusicClient)
    (w w' : World) (s : Summary) :
  Orchestrator.syncAllPlaylists config sp am w = (Ok s, w') ->
  exists newer,
    pages w' = newer ++ pages w
    /\ length newer
       = if Config.dryRun config then 0%nat
         else (c_added (s_spotify s) + c_added (s_appleMusic s))%nat.
Proof.
  unfold Orchestrator.syncAllPlaylists, tryCatch. intros E.
  destruct (Orchestrator.syncPlaylists config sp am
              (Config.getAllConfiguredPlaylists config)
              (mkSummary (mkCounts 0 0 0 0) (mkCounts 0 0 0 0)
                         (mkTotal 0 0 0 0)) w) as [[s1|e] w1] eqn:E1; [|done].
  simplify_eq.
  destruct (syncPlaylists_grows config sp am _ _ _ _ _ E1)
    as (newer & Hn & Hl & _).
  exists newer. split; [done|]. rewrite Hl. unfold newPages, addedOf. simpl.
  by rewrite Nat.sub_0_r.
Qed.

Lemma sync_only_adds_witness :
  exists newer,
    pages (snd (Orchestrator.syncAllPlaylists (Sample.live false)
                  (Sample.clientOf threeTracks) Sample.down Sample.sink2))
    = newer ++ pages Sample.sink2
    /\ length newer = 1%nat.
Proof.
  destruct (Orchestrator.syncAllPlaylists (Sample.live false)
              (Sample.clientOf threeTracks) Sample.down Sample.sink2)
    as [[s|e] w'] eqn:E; [|vm_compute in E; discriminate].
  destruct (sync_only_adds _ _ _ _ _ _ E) as (newer & Hn & Hl).
  exists newer. split; [exact Hn|]. rewrite Hl.
  vm_compute in E. by injection E as <- _.
Defined.

(** X5.  A full sync deletes no record and changes no field but [Removed].
    Whatever the full sync returns or throws, every page of the sink it
    started from is in the sink afterwards, either as it was or with
    [Removed] set to true and every other property as it was; and a page
    that was already marked as removed is there as it was: a full sync does
    not reset the mark. *)
Theorem full_sync_keeps_every_record (config : Config.Exports)
    (sp am : MusicClient) (w w' : World) (out : Result FullResults) :
  Orchestrator.fullSync config sp am w = (out, w') ->
  forall p,
    p ∈ pages w ->
    (p ∈ pages w' \/ markedPage p ∈ pages w')
    /\ id (markedPage p) = id p
    /\ (forall name,
          name <> Schema.REMOVED ->
          properties (markedPage p) !! name = properties p !! name)
    /\ (checkbox p Schema.REMOVED = true -> p ∈ pages w').
Proof.
  intros E p Hp. rewrite fullSync_run in E.
  destruct (syncAllPlaylists_returns config sp am w) as (s & w1 & E1).
  rewrite E1 in E.
  destruct (Orchestrator.syncAllPlaylists config sp am w) as [r0 w0] eqn:E0.
  simplify_eq.
  assert (exists newer, pages w1 = newer ++ pages w) as [newer Hn].
  { unfold Orchestrator.syncAllPlaylists, tryCatch in E0.
    destruct (Orchestrator.syncPlaylists config sp am _ _ w)
      as [[s1|e] w2] eqn:E2; [|done]. simplify_eq.
    destruct (syncPlaylists_grows config sp am _ _ _ _ _ E2) as (n & ? & _).
    by exists n. }
  assert (exists marks, pages w' = mark marks <$> pages w1) as [marks Hm].
  { destruct (Orchestrator.cleanupRemovedTracks config sp am w1)
      as [[c|e] w2] eqn:Ec; simplify_eq;
      eapply cleanup_only_marks; exact Ec. }
  assert (mark marks p ∈ pages w') as Hin.
  { rewrite Hm. apply list_elem_of_fmap_2. rewrite Hn. set_solver. }
  split; [|split; [done|split; [by apply markedPage_lookup|]]].
  - unfold mark in Hin. destruct (bool_decide _); auto.
  - intros Hr. unfold mark in Hin. rewrite (markedPage_removed p Hr) in Hin.
    by destruct (bool_decide _).
Qed.

Lemma full_sync_keeps_every_record_witness :
  byHand ∈ pages (snd (Orchestrator.fullSync (Sample.live false)
                         (Sample.clientOf twoLive) Sample.down cleanupSink))
  \/ markedPage byHand
     ∈ pages (snd (Orchestrator.fullSync (Sample.live false)
                     (Sample.clientOf twoLive) Sample.down cleanupSink)).
Proof.
  destruct (Orchestrator.fullSync (Sample.live false)
              (Sample.clientOf twoLive) Sample.down cleanupSink)
    as [out w'] eqn:E.
  refine (proj1 (full_sync_keeps_every_record _ _ _ _ _ _ E byHand _)).
  vm_compute. set_solver.
Defined.

(** ** More on the cleanup *)

Section MoreCleanup.
Variable config : Config.Exports.
Variable sp am : MusicClient.

Lemma checkTracks_none_stale (ids : gset string) (records : list Page)
    (res : CleanupResults) (w : World) :
  (forall x, x ∈ records -> stale ids x = false) ->
  Orchestrator.checkTracks config ids records res w = (Ok res, w).
Proof.
  induction records as [|x rest IH]; intros H; [done|].
  rewrite checkTracks_step, (H x) by set_solver.
  apply IH. intros y Hy. apply H. set_solver.
Qed.

Lemma checkTracks_dry (ids : gset string) (records : list Page)
    (res : CleanupResults) (w : World) :
  Config.dryRun config = true ->
  Orchestrator.checkTracks config ids records res w
  = (Ok (mkCleanupResults
           (marked res + length (List.filter (stale ids) records))
           (cleanup_errors res)), w).
Proof.
  intros D. revert res. induction records as [|x rest IH]; intros res.
  - simpl. unfold ret. rewrite Nat.add_0_r. by destruct res.
  - rewrite checkTracks_step. cbn [List.filter].
    destruct (stale ids x).
    + rewrite markTrackRemoved_run, D, IH. simpl. do 3 f_equal. lia.
    + apply IH.
Qed.

(** A real run of the cleanup in which no request fails. *)
Lemma cleanup_real (ids : gset string) (w : World) :
  Config.dryRun config = false ->
  (forall n, fails w n = false) ->
  Orchestrator.currentTrackIds (liveTracks config sp am) ∅ = Ok ids ->
  exists w' marks,
    Orchestrator.cleanupRemovedTracks config sp am w
    = (Ok (mkCleanupResults (length (staleRecords ids w)) 0), w')
    /\ pages w' = mark marks <$> pages w
    /\ fails w' = fails w
    /\ (forall x, x ∈ examined w -> stale ids x = true -> id x ∈ marks)
    /\ (forall i, i ∈ marks ->
          exists x, x ∈ examined w /\ id x = i /\ stale ids x = true).
Proof.
  intros D F Eids. rewrite cleanupRemovedTracks_run, F, Eids.
  destruct (checkTracks_marks config ids (pages w) (examined w)
              (mkCleanupResults 0 0) (ticked w) [])
    as (res' & w2 & marks & E' & Hp & Hf & _ & Hm & _ & Hlive);
    [by rewrite mark_nil|].
  destruct Hlive as (H1 & _ & H3 & H4); [done|by intros; apply F| |].
  { intros x Hx. apply list_elem_of_fmap_2.
    by apply elem_of_List_filter in Hx as [_ ?]. }
  exists w2, marks. fold (examined w). rewrite E'.
  split; [|split; [done|split; [done|split; [done|]]]].
  - destruct res' as [m e]. simpl in *. by rewrite H3, H4.
  - intros i Hi. destruct (Hm i Hi) as [H|H]; [by apply elem_of_nil in H|done].
Qed.

Lemma markedPage_checkbox (p : Page) :
  checkbox (markedPage p) Schema.REMOVED = true.
Proof.
  unfold checkbox, markedPage. rewrite patch_lookup. unfold removedProps.
  by rewrite lookup_singleton_eq.
Qed.

Lemma examined_elem (w : World) (x : Page) :
  x ∈ examined w <-> checkbox x "Removed" = false /\ x ∈ pages w.
Proof.
  unfold examined. rewrite elem_of_List_filter. simpl.
  destruct (checkbox x "Removed"); simpl; naive_solver.
Qed.

(** The live tracks when no configured playlist can be fetched. *)
Lemma currentTracks_unreachable (ps : list Config.Configured)
    (ss aa : list Track) :
  (forall p, p ∈ ps ->
     isOk (getPlaylistTracks (clientOf sp am p) (Config.cid p)) = false) ->
  Orchestrator.currentTracks sp am ps ss aa = ss ++ aa.
Proof.
  revert ss aa. induction ps as [|p ps IH]; intros ss aa H; [done|].
  cbn [Orchestrator.currentTracks].
  pose proof (H p ltac:(set_solver)) as Hp. unfold clientOf in Hp.
  destruct (Config.service p);
    destruct (getPlaylistTracks _ (Config.cid p)); try done;
    apply IH; intros q Hq; apply H; set_solver.
Qed.

Lemma stale_empty (p : Page) :
  stale ∅ p = negb (Orchestrator.manuallyAdded p).
Proof.
  unfold stale, Orchestrator.trackExists, Orchestrator.has.
  destruct (Orchestrator.manuallyAdded p); [done|]. cbv zeta.
  repeat match goal with
         | |- context [@bool_decide ?P ?d] =>
             replace (@bool_decide P d) with false
               by (symmetry; apply bool_decide_eq_false_2; set_solver)
         end.
  rewrite andb_false_r. simpl. by destruct (_ && _).
Qed.

End MoreCleanup.

(** X6.  A real cleanup in which no request fails is idempotent: a second
    cleanup, run on the sink the first one left, marks nothing, counts no
    error and leaves every page as it is. *)
Theorem second_cleanup_marks_nothing (config : Config.Exports)
    (sp am : MusicClient) (w w1 : World) (res : CleanupResults) :
  Config.dryRun config = false ->
  (forall n, fails w n = false) ->
  Orchestrator.cleanupRemovedTracks config sp am w = (Ok res, w1) ->
  exists w2,
    Orchestrator.cleanupRemovedTracks config sp am w1
    = (Ok (mkCleanupResults 0 0), w2)
    /\ pages w2 = pages w1.
Proof.
  intros D F E.
  destruct (Orchestrator.currentTrackIds (liveTracks config sp am) ∅)
    as [ids|e] eqn:Eids.
  2:{ rewrite cleanupRemovedTracks_run, F, Eids in E. done. }
  destruct (cleanup_real config sp am ids w D F Eids)
    as (w' & marks & E' & Hp & Hf & H1 & _).
  rewrite E in E'. simplify_eq.
  exists (ticked w'). split; [|done].
  rewrite cleanupRemovedTracks_run, Hf, F, Eids.
  apply checkTracks_none_stale. intros x Hx.
  apply examined_elem in Hx as [Hrem Hx]. rewrite Hp in Hx.
  apply list_elem_of_fmap in Hx as (p & -> & Hin). unfold mark in *.
  destruct (bool_decide_reflect (id p ∈ marks)) as [Hm|Hm].
  - by rewrite markedPage_checkbox in Hrem.
  - destruct (stale ids p) eqn:Hs; [|done]. destruct Hm.
    apply H1; [|done]. by apply examined_elem.
Qed.

Lemma second_cleanup_marks_nothing_witness :
  returned
    (Orchestrator.cleanupRemovedTracks (Sample.live false)
       (Sample.clientOf twoLive) Sample.down
       (snd (Orchestrator.cleanupRemovedTracks (Sample.live false)
               (Sample.clientOf twoLive) Sample.down cleanupSink)))
  = Some (mkCleanupResults 0 0).
Proof.
  destruct (Orchestrator.cleanupRemovedTracks (Sample.live false)
              (Sample.clientOf twoLive) Sample.down cleanupSink)
    as [[res|e] w1] eqn:E; [|vm_compute in E; discriminate].
  destruct (second_cleanup_marks_nothing (Sample.live false)
              (Sample.clientOf twoLive) Sample.down cleanupSink w1 res
              eq_refl (fun _ => eq_refl) E) as (w2 & E2 & _).
  simpl. unfold returned. by rewrite E2.
Defined.

(** X7.  The dry run of the cleanup is a faithful preview.  When no request
    fails, a dry run that returns reports no error and leaves the pages as
    they are, and the real run on the same sink returns too, with no error
    and exactly the number of marked records the dry run reported. *)
Theorem dry_cleanup_predicts_real (config : Config.Exports)
    (sp am : MusicClient) (w wd : World) (d : CleanupResults) :
  (forall n, fails w n = false) ->
  Orchestrator.cleanupRemovedTracks (withDryRun true config) sp am w
  = (Ok d, wd) ->
  cleanup_errors d = 0%nat
  /\ pages wd = pages w
  /\ exists wr,
       Orchestrator.cleanupRemovedTracks (withDryRun false config) sp am w
       = (Ok (mkCleanupResults (marked d) 0), wr).
Proof.
  intros F E.
  assert (L : forall b, liveTracks (withDryRun b config) sp am
                        = liveTracks config sp am) by reflexivity.
  rewrite cleanupRemovedTracks_run, F, L in E.
  destruct (Orchestrator.currentTrackIds (liveTracks config sp am) ∅)
    as [ids|e] eqn:Eids; [|done].
  rewrite checkTracks_dry in E by reflexivity. simplify_eq. simpl.
  split; [done|]. split; [done|].
  destruct (cleanup_real (withDryRun false config) sp am ids w eq_refl F)
    as (wr & marks & Er & _); [by rewrite L|].
  exists wr. exact Er.
Qed.

Lemma dry_cleanup_predicts_real_witness :
  returned (Orchestrator.cleanupRemovedTracks (Sample.live false)
              (Sample.clientOf twoLive) Sample.down cleanupSink)
  = Some (mkCleanupResults 1 0).
Proof.
  destruct (Orchestrator.cleanupRemovedTracks
              (withDryRun true (Sample.live false))
              (Sample.clientOf twoLive) Sample.down cleanupSink)
    as [[d|e] wd] eqn:E; [|vm_compute in E; discriminate].
  destruct (dry_cleanup_predicts_real (Sample.live false)
              (Sample.clientOf twoLive) Sample.down cleanupSink wd d
              (fun _ => eq_refl) E) as (_ & _ & wr & Er).
  change (withDryRun false (Sample.live false)) with (Sample.live false) in Er.
  unfold returned. rewrite Er. simpl.
  vm_compute in E. by injection E as <- _.
Defined.

(** X8.  A playlist that cannot be fetched contributes no live track, so
    when no configured playlist can be fetched (or none is configured) a
    real cleanup in which no request to the sink fails marks as removed
    every record that is not yet removed and carries no manual-entry
    source. *)
Theorem unreachable_playlists_mark_every_record (config : Config.Exports)
    (sp am : MusicClient) (w : World) :
  Config.dryRun config = false ->
  (forall n, fails w n = false) ->
  (forall p, p ∈ Config.getAllConfiguredPlaylists config ->
     isOk (getPlaylistTracks (clientOf sp am p) (Config.cid p)) = false) ->
  liveTracks config sp am = []
  /\ exists res w',
       Orchestrator.cleanupRemovedTracks config sp am w = (Ok res, w')
       /\ cleanup_errors res = 0%nat
       /\ forall r,
            r ∈ pages w -> checkbox r "Removed" = false ->
            Orchestrator.manuallyAdded r = false ->
            markedPage r ∈ pages w'.
Proof.
  intros D F H.
  assert (L : liveTracks config sp am = [])
    by (unfold liveTracks; by rewrite currentTracks_unreachable).
  split; [done|].
  destruct (cleanup_real config sp am ∅ w D F)
    as (w' & marks & E & Hp & _ & H1 & _); [by rewrite L|].
  eexists _, w'. split; [exact E|]. split; [done|].
  intros r Hr Hrem Hman.
  assert (id r ∈ marks) as Hm.
  { apply H1; [by apply examined_elem|]. by rewrite stale_empty, Hman. }
  rewrite Hp. apply list_elem_of_fmap. exists r. split; [|done].
  unfold mark. by rewrite bool_decide_eq_true_2.
Qed.

Lemma unreachable_playlists_mark_every_record_witness :
  markedPage liveByIsrc
  ∈ pages (snd (Orchestrator.cleanupRemovedTracks (Sample.live false)
                  unreachable unreachable cleanupSink)).
Proof.
  destruct (unreachable_playlists_mark_every_record (Sample.live false)
              unreachable unreachable cleanupSink eq_refl (fun _ => eq_refl))
    as (_ & res & w' & E & _ & H).
  - intros p _. unfold clientOf. by destruct (Config.service p).
  - rewrite E. simpl. apply H; [|reflexivity|reflexivity].
    vm_compute. set_solver.
Defined.

(** * Properties of the configuration *)



